(** * Layer-wise compression orchestration: a shallow embedding

    This development embeds two source files of the repository,

    - [src/llmcompressor/modifiers/utils/layer_compressor.py]
      (class [LayerCompressor]), and
    - [src/llmcompressor/modifiers/quantization/gptq/utils/helpers.py]
      (function [get_output_error]),

    and proves the properties the specification states about them.

    Python objects live in an arena (a list of module records indexed by
    object identity); methods are actions of a small state-and-exception
    monad whose state survives a raised exception, as it does in Python. *)

From Stdlib Require Import ZArith QArith Qabs Lia.

From stdpp Require Import base list strings.

Local Open Scope string_scope.
Local Open Scope list_scope.

Set Warnings "-register-all".

(** ** Python values shared by both files *)

(** The accelerator or host a tensor lives on. *)
Inductive device := Cpu | Cuda (index : nat).

#[global] Instance device_eq_dec : EqDecision device.
Proof. solve_decision. Defined.

(** A [torch.Tensor]: its device, its shape and its entries in row-major
    order. Entries are exact rationals: rounding, infinities and
    not-a-number entries of floating point are outside the model. *)
Record tensor := Tensor {
  t_device : device;
  t_shape : list nat;
  t_data : list Q
}.

(** The objects that flow through a layer: a tensor, a tuple or list of
    objects, or any other non-iterable object such as [None]. *)
Inductive pyobj :=
  | PTensor (t : tensor)
  | PSeq (xs : list pyobj)
  | PNone.

(** Keyword arguments: a dict with string keys. *)
Definition kwargs := list (string * pyobj).

(** Python exceptions that the embedded code can raise. *)
Inductive exn :=
  | ValueError
  | AssertionError
  | ZeroDivisionError
  | TypeError
  | AttributeError
  | KeyError
  | IndexError
  | RuntimeError
  | RecursionError
  | EarlyStopException (args : list pyobj) (kw : kwargs).

(** The outcome of a Python call: a value or a raised exception. *)
Inductive result (A : Type) :=
  | Ok (a : A)
  | Err (e : exn).
Arguments Ok {A} a.
Arguments Err {A} e.

Definition is_tensor (o : pyobj) : bool :=
  match o with PTensor _ => true | _ => false end.

(** * The output error meter: [get_output_error] *)

Module OutputError.

(** A zero-dimensional tensor holding one number, as [l1_loss] returns it.
    The mean over no entries is [0/0], which torch reports as NaN; a
    positive number over zero is infinite. *)
Inductive scalar := Num (q : Q) | PInf | NaN.

Definition sadd (a b : scalar) : scalar :=
  match a, b with
  | NaN, _ | _, NaN => NaN
  | PInf, _ | _, PInf => PInf
  | Num x, Num y => Num (x + y)
  end.

(** Division of a non-negative scalar by a count. *)
Definition sdiv (a : scalar) (n : nat) : scalar :=
  match a with
  | NaN => NaN
  | PInf => PInf
  | Num x =>
      match n with
      | O => if Qeq_bool x 0 then NaN else PInf
      | S _ => Num (x / inject_Z (Z.of_nat n))
      end
  end.

(** What a Python arithmetic expression over ints and scalar tensors
    evaluates to. *)
Inductive pynum :=
  | PyInt (z : Z)
  | PyFloat (s : scalar)
  | PyTensor (s : scalar).

(** [acc + t] for a scalar tensor [t]: the result is a tensor. *)
Definition py_add (acc : pynum) (t : scalar) : pynum :=
  match acc with
  | PyInt z => PyTensor (sadd (Num (inject_Z z)) t)
  | PyFloat s | PyTensor s => PyTensor (sadd s t)
  end.

(** Python's [sum(xs)]: a left fold of [+] from the int [0]. *)
Definition py_sum (xs : list scalar) : pynum :=
  fold_left py_add xs (PyInt 0).

(** [x / n] for an int [n]: int by int raises on zero and is a float
    otherwise; a tensor divided by an int is a tensor. *)
Definition py_div (x : pynum) (n : nat) : result pynum :=
  match x with
  | PyInt z =>
      match n with
      | O => Err ZeroDivisionError
      | S _ => Ok (PyFloat (Num (inject_Z z / inject_Z (Z.of_nat n))))
      end
  | PyFloat s =>
      match n with
      | O => Err ZeroDivisionError
      | S _ => Ok (PyFloat (sdiv s n))
      end
  | PyTensor s => Ok (PyTensor (sdiv s n))
  end.

(** [n] consecutive chunks of [k] entries each. *)
Fixpoint chunks (k n : nat) (d : list Q) : list (list Q) :=
  match n with
  | O => []
  | S n' => take k d :: chunks k n' (drop k d)
  end.

(** Iterating a tensor yields its slices along the first dimension;
    a zero-dimensional tensor cannot be iterated. *)
Definition tensor_iter (t : tensor) : result (list pyobj) :=
  match t_shape t with
  | [] => Err TypeError
  | n :: s =>
      Ok (map (fun d => PTensor (Tensor (t_device t) s d))
              (chunks (foldr Nat.mul 1%nat s) n (t_data t)))
  end.

(** [[output for output in outputs] if isinstance(outputs, Iterable)
     else [outputs]]: tensors and sequences are iterable. *)
Definition outputs_list (outputs : pyobj) : result (list pyobj) :=
  match outputs with
  | PTensor t => tensor_iter t
  | PSeq xs => Ok xs
  | PNone => Ok [PNone]
  end.

(** [sum([...  for outputs, _ in pairs], start=[])]: the per-pair lists
    are built first, left to right, then concatenated. *)
Fixpoint flatten_outputs {C : Type} (pairs : list (pyobj * C))
  : result (list pyobj) :=
  match pairs with
  | [] => Ok []
  | (outputs, _) :: rest =>
      match outputs_list outputs with
      | Err e => Err e
      | Ok xs =>
          match flatten_outputs rest with
          | Err e => Err e
          | Ok ys => Ok (xs ++ ys)
          end
      end
  end.

(** The number of tensors in a flattened list:
    [sum([1 for _ in xs if isinstance(_, torch.Tensor)])]. *)
Definition count_tensors (xs : list pyobj) : nat :=
  length (filter (fun o => is_tensor o = true) xs).

(** Equality of scalars up to the value of the fraction. *)
Definition scalar_eq (a b : scalar) : Prop :=
  match a, b with
  | Num x, Num y => x == y
  | PInf, PInf | NaN, NaN => True
  | _, _ => False
  end.

Definition Qabs_diff (x y : Q) : Q := Qabs (x - y).

Definition Qsum (xs : list Q) : Q := foldr Qplus 0%Q xs.

Section WithBroadcast.

(** [torch.nn.functional.l1_loss] on tensors of different shapes either
    broadcasts them or raises [RuntimeError] ([None] here). Broadcasting
    belongs to torch and is left open. *)
Variable l1_broadcast : tensor -> tensor -> option scalar.

(** [torch.nn.functional.l1_loss(unq, q)] with the default mean
    reduction. The first operand is a tensor at every call site; a
    second operand that is no tensor has no [size()]. *)
Definition l1_loss (unq : tensor) (q : pyobj) : result scalar :=
  match q with
  | PTensor tq =>
      if decide (t_shape unq = t_shape tq) then
        Ok (sdiv (Num (Qsum (zip_with Qabs_diff (t_data unq) (t_data tq))))
                 (length (t_data unq)))
      else
        match l1_broadcast unq tq with
        | Some s => Ok s
        | None => Err RuntimeError
        end
  | _ => Err AttributeError
  end.

(** The list comprehension of the return statement: one loss per pair
    whose unquantized side is a tensor, left to right. *)
Fixpoint pair_losses (pairs : list (pyobj * pyobj)) : result (list scalar) :=
  match pairs with
  | [] => Ok []
  | (PTensor unq, q) :: rest =>
      match l1_loss unq q with
      | Err e => Err e
      | Ok s =>
          match pair_losses rest with
          | Err e => Err e
          | Ok ss => Ok (s :: ss)
          end
      end
  | _ :: rest => pair_losses rest
  end.

Definition get_output_error {C : Type}
    (unquantized quantized : list (pyobj * C)) : result pynum :=
  match flatten_outputs unquantized with
  | Err e => Err e
  | Ok unquantized_outputs =>
      match flatten_outputs quantized with
      | Err e => Err e
      | Ok quantized_outputs =>
          if negb (length unquantized_outputs =? length quantized_outputs)%nat
          then Err ValueError
          else
            let num_unq := count_tensors unquantized_outputs in
            let num_q := count_tensors quantized_outputs in
            if negb (num_q =? num_unq)%nat then Err AssertionError
            else
              match pair_losses (zip unquantized_outputs quantized_outputs) with
              | Err e => Err e
              | Ok losses => py_div (py_sum losses) num_q
              end
      end
  end.

(** *** The meter as the specification words it *)

(** A position takes part in the comparison when both sides hold a
    tensor there. *)
Definition both_tensors (p : pyobj * pyobj) : bool :=
  is_tensor p.1 && is_tensor p.2.

(** The loss of one position that holds tensors on both sides. *)
Definition position_loss (p : pyobj * pyobj) : result scalar :=
  match p.1 with
  | PTensor unq => l1_loss unq p.2
  | _ => Err TypeError
  end.

Fixpoint position_losses (ps : list (pyobj * pyobj)) : result (list scalar) :=
  match ps with
  | [] => Ok []
  | p :: rest =>
      match position_loss p with
      | Err e => Err e
      | Ok s =>
          match position_losses rest with
          | Err e => Err e
          | Ok ss => Ok (s :: ss)
          end
      end
  end.

(** Mean L1 loss over the positions where both flattened sequences hold
    a tensor: the sum of their losses over their number. *)
Definition mean_l1_spec (us qs : list pyobj) : result scalar :=
  let counted := filter (fun p => both_tensors p = true) (zip us qs) in
  match position_losses counted with
  | Err e => Err e
  | Ok losses => Ok (sdiv (foldr sadd (Num 0%Q) losses) (length counted))
  end.

(** The condition under which the error of a paired sequence against
    itself is zero: it flattens and every tensor of the flattened list
    has at least one entry. *)
Definition nonempty_tensor (o : pyobj) : bool :=
  match o with
  | PTensor t => negb (length (t_data t) =? 0)%nat
  | _ => true
  end.

Definition valid_outputs {C : Type} (X : list (pyobj * C)) : bool :=
  match flatten_outputs X with
  | Ok xs => forallb nonempty_tensor xs
  | Err _ => false
  end.

(** *** Scalars up to the value of the fraction *)

Lemma scalar_eq_refl s : scalar_eq s s.
Proof. destruct s; simpl; auto. reflexivity. Qed.

Lemma scalar_eq_sym a b : scalar_eq a b -> scalar_eq b a.
Proof. destruct a, b; simpl; auto. intros H; now symmetry. Qed.

Lemma scalar_eq_trans a b c : scalar_eq a b -> scalar_eq b c -> scalar_eq a c.
Proof.
  destruct a, b, c; simpl; auto; try tauto.
  intros H1 H2. now rewrite H1.
Qed.

Lemma sadd_proper a a' b b' :
  scalar_eq a a' -> scalar_eq b b' -> scalar_eq (sadd a b) (sadd a' b').
Proof.
  destruct a, a', b, b'; simpl; auto; try tauto.
  intros H1 H2. now rewrite H1, H2.
Qed.

Lemma sadd_assoc a b c : scalar_eq (sadd (sadd a b) c) (sadd a (sadd b c)).
Proof.
  destruct a, b, c; simpl; auto. symmetry. apply Qplus_assoc.
Qed.

Lemma sadd_zero_r a : scalar_eq (sadd a (Num 0%Q)) a.
Proof. destruct a; simpl; auto. apply Qplus_0_r. Qed.

Lemma sdiv_proper a b n : scalar_eq a b -> scalar_eq (sdiv a n) (sdiv b n).
Proof.
  destruct a as [x| |], b as [y| |]; simpl; auto; try tauto.
  intros H. destruct n as [|n].
  - rewrite (Qeq_bool_comm x), (Qeq_bool_comm y).
    destruct (Qeq_bool 0 x) eqn:Ex.
    + apply Qeq_bool_iff in Ex. rewrite H in Ex.
      apply Qeq_bool_iff in Ex. now rewrite Ex.
    + destruct (Qeq_bool 0 y) eqn:Ey; simpl; auto.
      apply Qeq_bool_iff in Ey. rewrite <- H in Ey.
      apply Qeq_bool_iff in Ey. congruence.
  - simpl. now rewrite H.
Qed.

(** The left fold of Python's [sum] agrees with the right-nested sum. *)
Lemma fold_left_sadd ls a :
  scalar_eq (fold_left sadd ls a) (sadd a (foldr sadd (Num 0%Q) ls)).
Proof.
  revert a. induction ls as [|l ls IH]; intros a; simpl.
  - apply scalar_eq_sym, sadd_zero_r.
  - eapply scalar_eq_trans; [apply IH|].
    apply sadd_assoc.
Qed.

Lemma fold_left_py_add_tensor ls a :
  fold_left py_add ls (PyTensor a) = PyTensor (fold_left sadd ls a).
Proof. revert a. induction ls as [|l ls IH]; intros a; simpl; auto. Qed.

Lemma py_sum_cons l ls :
  py_sum (l :: ls) = PyTensor (fold_left sadd ls (sadd (Num 0%Q) l)).
Proof. unfold py_sum. simpl. apply fold_left_py_add_tensor. Qed.

Lemma sadd_zero_l a : scalar_eq (sadd (Num 0%Q) a) a.
Proof. destruct a; simpl; auto. apply Qplus_0_l. Qed.

Lemma py_sum_spec l ls :
  exists s, py_sum (l :: ls) = PyTensor s /\
            scalar_eq s (foldr sadd (Num 0%Q) (l :: ls)).
Proof.
  eexists. split; [apply py_sum_cons|].
  eapply scalar_eq_trans; [apply fold_left_sadd|].
  simpl. apply sadd_proper; [apply sadd_zero_l | apply scalar_eq_refl].
Qed.

(** *** Facts about the comprehension of losses *)

Lemma l1_loss_errors unq q e :
  l1_loss unq q = Err e -> e = RuntimeError \/ e = AttributeError.
Proof.
  unfold l1_loss. destruct q as [tq| |]; try (intros [= <-]; auto).
  destruct (decide _); [discriminate|].
  destruct (l1_broadcast unq tq); [discriminate|].
  intros [= <-]; auto.
Qed.

Lemma pair_losses_errors ps e :
  pair_losses ps = Err e -> e = RuntimeError \/ e = AttributeError.
Proof.
  induction ps as [|[u q] ps IH]; simpl; [discriminate|].
  destruct u as [unq| |]; auto.
  destruct (l1_loss unq q) eqn:El.
  - destruct (pair_losses ps); [discriminate|]. intros [= <-]. auto.
  - intros [= <-]. eapply l1_loss_errors; eauto.
Qed.

Definition fst_tensor (p : pyobj * pyobj) : Prop := is_tensor p.1 = true.
Definition snd_tensor (p : pyobj * pyobj) : Prop := is_tensor p.2 = true.

#[local] Instance fst_tensor_dec p : Decision (fst_tensor p).
Proof. unfold fst_tensor. apply _. Defined.
#[local] Instance snd_tensor_dec p : Decision (snd_tensor p).
Proof. unfold snd_tensor. apply _. Defined.

(** A returned list of losses means every counted pair held a tensor on
    the quantized side as well. *)
Lemma pair_losses_ok_snd ps ls :
  pair_losses ps = Ok ls -> Forall (fun p => fst_tensor p -> snd_tensor p) ps.
Proof.
  revert ls. induction ps as [|[u q] ps IH]; intros ls; simpl; [constructor|].
  destruct u as [unq| |].
  - destruct (l1_loss unq q) eqn:El; [|discriminate].
    destruct (pair_losses ps) eqn:Ep; [|discriminate].
    intros _. constructor; [|eauto].
    intros _. unfold snd_tensor. simpl.
    destruct q; simpl in *; auto; discriminate.
  - intros H. constructor; [|eauto]. unfold fst_tensor; simpl; discriminate.
  - intros H. constructor; [|eauto]. unfold fst_tensor; simpl; discriminate.
Qed.

Lemma pair_losses_positions ps ls :
  pair_losses ps = Ok ls ->
  position_losses (filter fst_tensor ps) = Ok ls.
Proof.
  revert ls. induction ps as [|[u q] ps IH]; intros ls; simpl; [auto|].
  destruct u as [unq| |].
  - rewrite filter_cons_True by reflexivity. simpl.
    unfold position_loss at 1. simpl.
    destruct (l1_loss unq q); [|auto].
    destruct (pair_losses ps) eqn:Ep; [|discriminate].
    intros [= <-]. now rewrite (IH _ eq_refl).
  - rewrite filter_cons_False by (unfold fst_tensor; simpl; discriminate). auto.
  - rewrite filter_cons_False by (unfold fst_tensor; simpl; discriminate). auto.
Qed.

Lemma position_losses_length ps ls :
  position_losses ps = Ok ls -> length ls = length ps.
Proof.
  revert ls. induction ps as [|p ps IH]; intros ls; simpl.
  - now intros [= <-].
  - destruct (position_loss p); [|discriminate].
    destruct (position_losses ps); [|discriminate].
    intros [= <-]. simpl. f_equal. auto.
Qed.

(** With as many tensors on either side, tensors on the left implying
    tensors on the right makes the two sets of positions coincide. *)
Lemma filter_fst_le_snd ps :
  Forall (fun p => fst_tensor p -> snd_tensor p) ps ->
  length (filter fst_tensor ps) <= length (filter snd_tensor ps).
Proof.
  induction 1 as [|p ps Hp _ IH]; simpl; [lia|].
  rewrite !filter_cons.
  destruct (decide (fst_tensor p)), (decide (snd_tensor p)); simpl; try lia.
  tauto.
Qed.

Lemma filter_both_fst ps :
  Forall (fun p => fst_tensor p -> snd_tensor p) ps ->
  length (filter fst_tensor ps) = length (filter snd_tensor ps) ->
  filter (fun p => both_tensors p = true) ps = filter fst_tensor ps
  /\ Forall (fun p => snd_tensor p -> fst_tensor p) ps.
Proof.
  induction 1 as [|p ps Hp Hps IH]; simpl; [split; [reflexivity|constructor]|].
  rewrite !filter_cons.
  pose proof (filter_fst_le_snd ps Hps) as Hle.
  assert (Hb : both_tensors p = true <-> fst_tensor p /\ snd_tensor p).
  { unfold both_tensors, fst_tensor, snd_tensor.
    destruct (is_tensor p.1), (is_tensor p.2); simpl; intuition congruence. }
  destruct (decide (fst_tensor p)) as [Hf|Hf],
           (decide (snd_tensor p)) as [Hs|Hs]; simpl; intros Hlen.
  - destruct IH as [IH1 IH2]; [lia|].
    rewrite decide_True by tauto.
    split; [now rewrite IH1 | constructor; auto].
  - tauto.
  - lia.
  - destruct IH as [IH1 IH2]; [lia|].
    rewrite decide_False by tauto.
    split; [auto | constructor; auto; tauto].
Qed.

Lemma count_tensors_zip_fst (us qs : list pyobj) :
  length us = length qs ->
  length (filter fst_tensor (zip us qs)) = count_tensors us.
Proof.
  unfold count_tensors. revert qs.
  induction us as [|u us IH]; intros [|q qs]; simpl; try discriminate; auto.
  intros [= Hlen]. rewrite !filter_cons. unfold fst_tensor at 1. simpl.
  destruct (decide (is_tensor u = true)); simpl; auto.
Qed.

Lemma count_tensors_zip_snd (us qs : list pyobj) :
  length us = length qs ->
  length (filter snd_tensor (zip us qs)) = count_tensors qs.
Proof.
  unfold count_tensors. revert qs.
  induction us as [|u us IH]; intros [|q qs]; simpl; try discriminate; auto.
  intros [= Hlen]. rewrite !filter_cons. unfold snd_tensor at 1. simpl.
  destruct (decide (is_tensor q = true)); simpl; auto.
Qed.

(** *** The loss of a tensor against itself *)

Definition zero_scalar (s : scalar) : Prop := exists q, s = Num q /\ q == 0.

Lemma Qsum_abs_diff_self d : Qsum (zip_with Qabs_diff d d) == 0.
Proof.
  induction d as [|x d IH]; simpl; [reflexivity|].
  rewrite IH. unfold Qabs_diff.
  assert (Hx : (x - x == 0)%Q) by ring.
  rewrite Hx. reflexivity.
Qed.

Lemma l1_loss_self t :
  t_data t <> [] -> exists s, l1_loss t (PTensor t) = Ok s /\ zero_scalar s.
Proof.
  intros Hne. unfold l1_loss. rewrite decide_True by reflexivity.
  eexists. split; [reflexivity|].
  destruct (t_data t) as [|x d] eqn:Ed; [congruence|].
  cbn [sdiv length]. eexists. split; [reflexivity|].
  rewrite Qsum_abs_diff_self. reflexivity.
Qed.

Lemma pair_losses_self xs ls :
  forallb nonempty_tensor xs = true ->
  pair_losses (zip xs xs) = Ok ls -> Forall zero_scalar ls.
Proof.
  revert ls. induction xs as [|x xs IH]; intros ls; simpl.
  - intros _ [= <-]. constructor.
  - intros [Hx Hxs]%andb_true_iff.
    destruct x as [t| |]; eauto.
    destruct (l1_loss_self t) as (s & -> & Hs).
    { simpl in Hx. destruct (t_data t); [discriminate|congruence]. }
    destruct (pair_losses (zip xs xs)) eqn:Ep; [|discriminate].
    intros [= <-]. constructor; eauto.
Qed.

Lemma sadd_zero_scalar a b : zero_scalar a -> zero_scalar b -> zero_scalar (sadd a b).
Proof.
  intros (x & -> & Hx) (y & -> & Hy). eexists. split; [reflexivity|].
  rewrite Hx, Hy. reflexivity.
Qed.

Lemma fold_left_sadd_zero ls a :
  zero_scalar a -> Forall zero_scalar ls -> zero_scalar (fold_left sadd ls a).
Proof.
  intros Ha Hls. revert a Ha.
  induction Hls as [|l ls Hl _ IH]; intros a Ha; simpl; auto.
  apply IH. now apply sadd_zero_scalar.
Qed.

(** *** The claims about [get_output_error] *)

(** C7. When [get_output_error] returns, its value is a scalar tensor
    equal to the mean L1 loss of the specification: both inputs are
    flattened to ordered lists of individual outputs, exactly the
    positions holding a tensor in both lists are compared, and the sum
    of their losses is divided by the number of those positions. *)
Theorem get_output_error_is_mean_l1 {C : Type}
    (unquantized quantized : list (pyobj * C)) (r : pynum) :
  get_output_error unquantized quantized = Ok r ->
  exists us qs s m,
    flatten_outputs unquantized = Ok us /\
    flatten_outputs quantized = Ok qs /\
    length us = length qs /\
    r = PyTensor s /\
    mean_l1_spec us qs = Ok m /\
    scalar_eq s m.
Proof.
  unfold get_output_error.
  destruct (flatten_outputs unquantized) as [us|] eqn:Eu; [|discriminate].
  destruct (flatten_outputs quantized) as [qs|] eqn:Eq; [|discriminate].
  destruct (Nat.eqb_spec (length us) (length qs)) as [Hlen|]; [|discriminate].
  destruct (Nat.eqb_spec (count_tensors qs) (count_tensors us)) as [Hcnt|];
    [|discriminate].
  cbn [negb].
  destruct (pair_losses (zip us qs)) as [losses|] eqn:Ep; [|discriminate].
  pose proof (pair_losses_ok_snd _ _ Ep) as Hsnd.
  pose proof (pair_losses_positions _ _ Ep) as Hpos.
  pose proof (position_losses_length _ _ Hpos) as Hll.
  rewrite count_tensors_zip_fst in Hll by assumption.
  destruct (filter_both_fst _ Hsnd) as [Hboth _].
  { now rewrite count_tensors_zip_fst, count_tensors_zip_snd. }
  destruct losses as [|l ls].
  - simpl in Hll. rewrite Hcnt, <- Hll. discriminate.
  - destruct (py_sum_spec l ls) as (s0 & -> & Hs0).
    cbn [py_div]. intros [= <-].
    exists us, qs, (sdiv s0 (count_tensors qs)). eexists.
    repeat split; auto.
    + unfold mean_l1_spec. rewrite Hboth, Hpos. reflexivity.
    + rewrite count_tensors_zip_fst, <- Hcnt by assumption.
      now apply sdiv_proper.
Qed.

(** C8. Once both inputs are flattened, [get_output_error] raises
    [ValueError] whenever the flattened lengths differ, fails its
    assertion whenever the lengths agree but the numbers of tensors
    differ, and raises neither when lengths and tensor counts agree. *)
Theorem get_output_error_validation {C : Type}
    (unquantized quantized : list (pyobj * C)) (us qs : list pyobj) :
  flatten_outputs unquantized = Ok us ->
  flatten_outputs quantized = Ok qs ->
  (length us <> length qs ->
     get_output_error unquantized quantized = Err ValueError) /\
  (length us = length qs -> count_tensors us <> count_tensors qs ->
     get_output_error unquantized quantized = Err AssertionError) /\
  (length us = length qs -> count_tensors us = count_tensors qs ->
     get_output_error unquantized quantized <> Err ValueError /\
     get_output_error unquantized quantized <> Err AssertionError).
Proof.
  intros Eu Eq. unfold get_output_error. rewrite Eu, Eq.
  split; [|split].
  - intros Hne. now destruct (Nat.eqb_spec (length us) (length qs)).
  - intros Hlen Hne.
    destruct (Nat.eqb_spec (length us) (length qs)); [|congruence].
    destruct (Nat.eqb_spec (count_tensors qs) (count_tensors us)); [congruence|].
    reflexivity.
  - intros Hlen Hcnt.
    destruct (Nat.eqb_spec (length us) (length qs)); [|congruence].
    destruct (Nat.eqb_spec (count_tensors qs) (count_tensors us)); [|congruence].
    cbn [negb].
    destruct (pair_losses (zip us qs)) as [losses|err] eqn:Ep.
    + destruct (py_sum losses), (count_tensors qs); simpl; split; discriminate.
    + destruct (pair_losses_errors _ _ Ep) as [-> | ->]; split; discriminate.
Qed.

(** C9, as the code has it. Let every tensor among the flattened
    outputs of [X] have at least one entry (the entries being exact
    numbers, hence finite), and let [get_output_error] accept [X]
    against itself, that is, return. Then the value is a scalar tensor
    holding zero. Without the condition on the entries the value need
    not be zero: a tensor without entries gives NaN. *)
Theorem get_output_error_self_zero {C : Type} (X : list (pyobj * C)) (r : pynum) :
  valid_outputs X = true ->
  get_output_error X X = Ok r ->
  exists q, r = PyTensor (Num q) /\ q == 0.
Proof.
  unfold valid_outputs, get_output_error.
  destruct (flatten_outputs X) as [xs|] eqn:Ex; [|discriminate].
  intros Hvalid. rewrite Nat.eqb_refl, Nat.eqb_refl. cbn [negb].
  destruct (pair_losses (zip xs xs)) as [losses|] eqn:Ep; [|discriminate].
  pose proof (pair_losses_self _ _ Hvalid Ep) as Hz.
  pose proof (pair_losses_positions _ _ Ep) as Hpos.
  pose proof (position_losses_length _ _ Hpos) as Hll.
  rewrite count_tensors_zip_fst in Hll by reflexivity.
  destruct losses as [|l ls].
  - simpl in Hll. rewrite <- Hll. discriminate.
  - rewrite py_sum_cons. unfold py_div.
    inversion Hz as [|? ? Hl Hls]; subst.
    destruct (fold_left_sadd_zero ls (sadd (Num 0%Q) l)) as (q & Eq & Hq); auto.
    { apply sadd_zero_scalar; auto. eexists; split; reflexivity. }
    rewrite Eq, <- Hll. intros [= <-]. cbn [sdiv length]. eexists. split; [reflexivity|].
    rewrite Hq. reflexivity.
Qed.

(** C10. When both inputs flatten to lists of equal length that hold no
    tensor at all, the length and count checks pass and the final
    division by the tensor count raises [ZeroDivisionError]. *)
Theorem get_output_error_no_tensors {C : Type}
    (unquantized quantized : list (pyobj * C)) (us qs : list pyobj) :
  flatten_outputs unquantized = Ok us ->
  flatten_outputs quantized = Ok qs ->
  length us = length qs ->
  count_tensors us = 0%nat ->
  count_tensors qs = 0%nat ->
  get_output_error unquantized quantized = Err ZeroDivisionError.
Proof.
  intros Eu Eq Hlen Hu Hq. unfold get_output_error. rewrite Eu, Eq.
  rewrite Hlen, Nat.eqb_refl, Hu, Hq. cbn [negb Nat.eqb].
  assert (Hnil : pair_losses (zip us qs) = Ok []).
  { clear Eu Eq Hq. revert qs Hlen.
    induction us as [|u us IH]; intros [|q qs]; simpl; try discriminate; auto.
    intros [= Hlen]. unfold count_tensors in Hu. rewrite filter_cons in Hu.
    destruct (decide (is_tensor u = true)) as [|Hn]; [discriminate|].
    destruct u; simpl in Hn; try congruence; apply IH; auto. }
  rewrite Hnil. reflexivity.
Qed.

End WithBroadcast.

(** *** Concrete runs *)

(** A torch that refuses every pair of unequal shapes. *)
Definition no_broadcast (a b : tensor) : option scalar := None.

Definition vec (x y : Q) : tensor := Tensor Cpu [2%nat] [x; y].

Definition mat (a b c d : Q) : tensor := Tensor Cpu [2%nat; 2%nat] [a; b; c; d].

(** Two samples: a tuple of a vector and [None], then a bare matrix,
    which is iterated row by row. *)
Definition sample_unquantized : list (pyobj * unit) :=
  [(PSeq [PTensor (vec 1 2); PNone], tt); (PTensor (mat 1 2 3 5), tt)].

Definition sample_quantized : list (pyobj * unit) :=
  [(PSeq [PTensor (vec 2 4); PNone], tt); (PTensor (mat 1 1 1 1), tt)].

(** The same first sample with the tensor and [None] swapped: as many
    entries and as many tensors, at other positions. *)
Definition sample_misaligned : list (pyobj * unit) :=
  [(PSeq [PNone; PTensor (vec 2 4)], tt); (PTensor (mat 1 1 1 1), tt)].

Example get_output_error_sample :
  get_output_error no_broadcast sample_unquantized sample_quantized
  = Ok (PyTensor (Num (40 # 24))).
Proof. reflexivity. Qed.

Example get_output_error_misaligned :
  get_output_error no_broadcast sample_unquantized sample_misaligned
  = Err AttributeError.
Proof. reflexivity. Qed.

Example get_output_error_three_against_two :
  get_output_error no_broadcast
    [(PSeq [PTensor (vec 1 2)], tt); (PSeq [PTensor (vec 1 2)], tt);
     (PSeq [PTensor (vec 1 2)], tt)]
    [(PSeq [PTensor (vec 1 2)], tt); (PSeq [PTensor (vec 1 2)], tt)]
  = Err ValueError.
Proof. reflexivity. Qed.

Lemma get_output_error_is_mean_l1_witness :
  get_output_error no_broadcast sample_unquantized sample_quantized
    = Ok (PyTensor (Num (40 # 24))) /\
  exists us qs s m,
    flatten_outputs sample_unquantized = Ok us /\
    flatten_outputs sample_quantized = Ok qs /\
    length us = length qs /\
    PyTensor (Num (40 # 24)) = PyTensor s /\
    mean_l1_spec no_broadcast us qs = Ok m /\
    scalar_eq s m.
Proof.
  split; [reflexivity|].
  apply (get_output_error_is_mean_l1 no_broadcast
           sample_unquantized sample_quantized).
  reflexivity.
Defined.

Lemma get_output_error_validation_witness :
  (length [PTensor (vec 1 2); PNone] <> length [PTensor (vec 2 4)] ->
     get_output_error no_broadcast
       [(PSeq [PTensor (vec 1 2); PNone], tt)] [(PSeq [PTensor (vec 2 4)], tt)]
     = Err ValueError) /\
  (length [PTensor (vec 1 2); PNone] = length [PTensor (vec 2 4)] ->
   count_tensors [PTensor (vec 1 2); PNone] <> count_tensors [PTensor (vec 2 4)] ->
     get_output_error no_broadcast
       [(PSeq [PTensor (vec 1 2); PNone], tt)] [(PSeq [PTensor (vec 2 4)], tt)]
     = Err AssertionError) /\
  (length [PTensor (vec 1 2); PNone] = length [PTensor (vec 2 4)] ->
   count_tensors [PTensor (vec 1 2); PNone] = count_tensors [PTensor (vec 2 4)] ->
     get_output_error no_broadcast
       [(PSeq [PTensor (vec 1 2); PNone], tt)] [(PSeq [PTensor (vec 2 4)], tt)]
     <> Err ValueError /\
     get_output_error no_broadcast
       [(PSeq [PTensor (vec 1 2); PNone], tt)] [(PSeq [PTensor (vec 2 4)], tt)]
     <> Err AssertionError).
Proof.
  apply (get_output_error_validation no_broadcast
           [(PSeq [PTensor (vec 1 2); PNone], tt)]
           [(PSeq [PTensor (vec 2 4)], tt)]); reflexivity.
Defined.

Lemma get_output_error_self_zero_witness :
  valid_outputs sample_unquantized = true /\
  get_output_error no_broadcast sample_unquantized sample_unquantized
    = Ok (PyTensor (Num (0 # 24))) /\
  exists q, PyTensor (Num (0 # 24)) = PyTensor (Num q) /\ q == 0.
Proof.
  split; [reflexivity|]. split; [reflexivity|].
  apply (get_output_error_self_zero no_broadcast sample_unquantized);
    reflexivity.
Defined.

Lemma get_output_error_no_tensors_witness :
  get_output_error no_broadcast
    [(PNone, tt); (PSeq [PNone; PSeq []], tt)]
    [(PSeq [PNone; PNone], tt); (PNone, tt)]
  = Err ZeroDivisionError.
Proof.
  apply (get_output_error_no_tensors no_broadcast
           [(PNone, tt); (PSeq [PNone; PSeq []], tt)]
           [(PSeq [PNone; PNone], tt); (PNone, tt)]
           [PNone; PNone; PSeq []] [PNone; PNone; PNone]); reflexivity.
Defined.

(** One sample whose only output is a tensor of shape [(0,)], as
    [torch.empty(0)] makes it. *)
Definition sample_empty : list (pyobj * unit) :=
  [(PSeq [PTensor (Tensor Cpu [0%nat] [])], tt)].

(** C9 as stated fails: a sequence holding a tensor without entries is
    accepted, and its error against itself is NaN, the mean over no
    entries, and not zero. *)
Lemma get_output_error_self_zero_counterexample :
  get_output_error no_broadcast sample_empty sample_empty = Ok (PyTensor NaN) /\
  ~ (exists q, PyTensor NaN = PyTensor (Num q) /\ q == 0).
Proof.
  split; [reflexivity|]. intros (q & Hq & _). discriminate.
Qed.

(** Both inputs empty: the division by zero of C10 on the smallest input. *)
Example get_output_error_empty :
  get_output_error no_broadcast (@nil (pyobj * unit)) [] = Err ZeroDivisionError.
Proof. reflexivity. Qed.

End OutputError.

(** * The layer compression orchestrator: [LayerCompressor] *)

Module Compressor.

(** ** Dicts that keep insertion order *)

Section Dict.
Context {K V : Type} `{EqDecision K}.

(** [d[k]], or [None] when the key is absent. *)
Fixpoint dict_get (k : K) (d : list (K * V)) : option V :=
  match d with
  | [] => None
  | (k', v) :: d' => if decide (k = k') then Some v else dict_get k d'
  end.

(** [d[k] = v]: an existing key keeps its place, a new key goes last. *)
Fixpoint dict_set (k : K) (v : V) (d : list (K * V)) : list (K * V) :=
  match d with
  | [] => [(k, v)]
  | (k', v') :: d' =>
      if decide (k = k') then (k, v) :: d' else (k', v') :: dict_set k v d'
  end.

(** [del d[k]] when the key is present. *)
Fixpoint dict_del (k : K) (d : list (K * V)) : list (K * V) :=
  match d with
  | [] => []
  | (k', v') :: d' =>
      if decide (k = k') then d' else (k', v') :: dict_del k d'
  end.

End Dict.

(** ** Dotted names *)

(** [s.split(c)]: the empty string splits into one empty segment. *)
Fixpoint split_on (c : Ascii.ascii) (s : string) : list string :=
  match s with
  | EmptyString => [EmptyString]
  | String a s' =>
      if Ascii.eqb a c then EmptyString :: split_on c s'
      else match split_on c s' with
           | [] => [String a EmptyString]
           | seg :: segs => String a seg :: segs
           end
  end.

Definition split_dots (s : string) : list string :=
  split_on (Ascii.ascii_of_nat 46) s.

(** [(segs[:-1], segs[-1])]. *)
Fixpoint split_last (segs : list string) : list string * string :=
  match segs with
  | [] => ([], "")
  | [a] => ([], a)
  | a :: rest => let (p, l) := split_last rest in (a :: p, l)
  end.

(** ** The arena of torch modules *)

(** The identity of a Python object: its index in the arena. *)
Abbreviation loc := nat (only parsing).

(** The closure [tmp] that [add_batch(name)] returns inside
    [pre_compress]; it is the only forward hook the orchestrator makes. *)
Inductive forward_hook := AddBatchHook (name : string).

(** [trigger_early_stop_fn], the only forward pre-hook. *)
Inductive forward_pre_hook := EarlyStopHook.

(** An instance of [module_compressor_class] carries its [name]; every
    other module is plain. *)
Inductive module_class :=
  | Plain
  | CompressionWrapper (name : string).

(** A [torch.nn.Module]: its class, its ordered dict of child modules and
    its two ordered dicts of hooks, keyed by handle id. *)
Record torch_module := MkModule {
  m_class : module_class;
  m_modules : list (string * loc);
  m_forward_hooks : list (nat * forward_hook);
  m_forward_pre_hooks : list (nat * forward_pre_hook)
}.

Definition set_modules (ms : list (string * loc)) (m : torch_module) :=
  MkModule (m_class m) ms (m_forward_hooks m) (m_forward_pre_hooks m).

Definition set_forward_hooks (hs : list (nat * forward_hook)) (m : torch_module) :=
  MkModule (m_class m) (m_modules m) hs (m_forward_pre_hooks m).

Definition set_forward_pre_hooks (hs : list (nat * forward_pre_hook))
    (m : torch_module) :=
  MkModule (m_class m) (m_modules m) (m_forward_hooks m) hs.

(** Which of a module's hook dicts a handle points into. *)
Inductive hook_kind := ForwardHooks | ForwardPreHooks.

(** A [RemovableHandle]: the hook dict it was issued for and its id. *)
Record handle := Handle {
  h_module : loc;
  h_kind : hook_kind;
  h_id : nat
}.

(** What the opaque collaborators are asked to do, in order. The
    wrapper's operations record whether gradients were being tracked. *)
Inductive event :=
  | EvAddBatch (wrapper : loc) (inp out : tensor)
  | EvCompress (wrapper : loc) (args : kwargs) (grad : bool)
  | EvFree (wrapper : loc) (grad : bool)
  | EvSynchronize (cuda_index : nat)
  | EvEmptyCache
  | EvGcCollect.

(** The fields of a [LayerCompressor] instance. [modules] starts as an
    empty dict and is [None] after [revert_layer_wrappers]. *)
Record LayerCompressor := MkLayerCompressor {
  model : loc;
  layer : loc;
  layer_index : Z;
  name : string;
  args : kwargs;
  handles : list handle;
  early_stop_handle : option handle;
  modules : option (list (string * loc))
}.

(** [LayerCompressor.__init__]. *)
Definition init (model0 layer0 : loc) (layer_index0 : Z) (name0 : string)
    (args0 : kwargs) : LayerCompressor :=
  MkLayerCompressor model0 layer0 layer_index0 name0 args0 [] None (Some []).

(** Everything a method can read or change: the arena, the counter that
    numbers hook handles, the gradient mode, the events so far and the
    instance itself. *)
Record world := MkWorld {
  heap : list torch_module;
  next_hook_id : nat;
  grad_enabled : bool;
  trace : list event;
  self : LayerCompressor
}.

Definition set_heap (h : list torch_module) (w : world) : world :=
  MkWorld h (next_hook_id w) (grad_enabled w) (trace w) (self w).

Definition set_next_hook_id (n : nat) (w : world) : world :=
  MkWorld (heap w) n (grad_enabled w) (trace w) (self w).

Definition set_grad_enabled (b : bool) (w : world) : world :=
  MkWorld (heap w) (next_hook_id w) b (trace w) (self w).

Definition set_trace (t : list event) (w : world) : world :=
  MkWorld (heap w) (next_hook_id w) (grad_enabled w) t (self w).

Definition set_self (lc : LayerCompressor) (w : world) : world :=
  MkWorld (heap w) (next_hook_id w) (grad_enabled w) (trace w) lc.

Definition set_layer_field (l : loc) (lc : LayerCompressor) :=
  MkLayerCompressor (model lc) l (layer_index lc) (name lc) (args lc)
    (handles lc) (early_stop_handle lc) (modules lc).

Definition set_handles (hs : list handle) (lc : LayerCompressor) :=
  MkLayerCompressor (model lc) (layer lc) (layer_index lc) (name lc) (args lc)
    hs (early_stop_handle lc) (modules lc).

Definition set_early_stop_handle (h : option handle) (lc : LayerCompressor) :=
  MkLayerCompressor (model lc) (layer lc) (layer_index lc) (name lc) (args lc)
    (handles lc) h (modules lc).

Definition set_modules_field (ms : option (list (string * loc)))
    (lc : LayerCompressor) :=
  MkLayerCompressor (model lc) (layer lc) (layer_index lc) (name lc) (args lc)
    (handles lc) (early_stop_handle lc) ms.

(** ** Methods as state-and-exception actions *)

(** A method body: from the world before to the world after and either a
    value or the exception raised. The world at a raise is kept. *)
Definition M (A : Type) : Type := world -> world * result A.

Definition ret {A : Type} (a : A) : M A := fun w => (w, Ok a).

Definition raise {A : Type} (e : exn) : M A := fun w => (w, Err e).

Definition bind {A B : Type} (c : M A) (k : A -> M B) : M B :=
  fun w =>
    match c w with
    | (w', Ok a) => k a w'
    | (w', Err e) => (w', Err e)
    end.

Declare Scope py_scope.
Delimit Scope py_scope with py.
Notation "x <- c1 ;; c2" := (bind c1 (fun x => c2))
  (at level 100, c1 at next level, right associativity) : py_scope.
Notation "c1 ;; c2" := (bind c1 (fun _ => c2))
  (at level 100, right associativity) : py_scope.
Local Open Scope py_scope.

Definition get_world : M world := fun w => (w, Ok w).

Definition get_self : M LayerCompressor := fun w => (w, Ok (self w)).

Definition put_self (lc : LayerCompressor) : M unit :=
  fun w => (set_self lc w, Ok tt).

Definition put_heap (h : list torch_module) : M unit :=
  fun w => (set_heap h w, Ok tt).

Definition emit (e : event) : M unit :=
  fun w => (set_trace (trace w ++ [e]) w, Ok tt).

Definition lift {A : Type} (r : result A) : M A := fun w => (w, r).

(** A [for] loop over a list that the body does not change. *)
Fixpoint for_each {A : Type} (xs : list A) (body : A -> M unit) : M unit :=
  match xs with
  | [] => ret tt
  | x :: xs' => body x ;; for_each xs' body
  end.

(** ** Collaborators outside the embedded files *)

(** Functions that the orchestrator consumes and that live in torch, in
    compressed_tensors or in the model under compression. *)
Class Externals := {
  (** [fix_fsdp_module_name]: normalises a sharded-wrapper-qualified
      name to a plain dotted path. *)
  fix_fsdp_module_name : string -> string;
  (** [get_prunable_layers(layer)]: the mapping from relative names to
      the compressible modules of a layer, in traversal order. *)
  get_prunable_layers : list torch_module -> loc -> list (string * loc);
  (** [get_execution_device(module)]. *)
  get_execution_device : list torch_module -> loc -> device;
  (** [torch.cuda.device_count()]. *)
  cuda_device_count : nat;
  (** The [forward] method of a module: the computation of the module
      itself, whatever it does to the world. *)
  forward : loc -> list pyobj -> kwargs -> M pyobj
}.

(** Modelled from the spec: [tensors_to_device] of
    [llmcompressor.pytorch.utils] is not among the sources; it moves
    every tensor of a nested structure to the given device and leaves
    the rest in place. *)
Fixpoint tensors_to_device (o : pyobj) (d : device) : pyobj :=
  match o with
  | PTensor t => PTensor (Tensor d (t_shape t) (t_data t))
  | PSeq xs => PSeq (map (fun x => tensors_to_device x d) xs)
  | PNone => PNone
  end.

Definition args_to_device (a : list pyobj) (d : device) : list pyobj :=
  map (fun x => tensors_to_device x d) a.

Definition kwargs_to_device (kw : kwargs) (d : device) : kwargs :=
  map (fun kv => (kv.1, tensors_to_device kv.2 d)) kw.

(** Every tensor inside an object lives on the given device. *)
Fixpoint on_device (d : device) (o : pyobj) : bool :=
  match o with
  | PTensor t => bool_decide (t_device t = d)
  | PSeq xs => forallb (on_device d) xs
  | PNone => true
  end.

(** ** Attribute access on modules *)

(** [getattr(o, a)] for a child module [a]. An identity that names no
    object of the arena cannot arise in Python; it is reported as
    [RuntimeError]. *)
Definition getattr_module (h : list torch_module) (o : loc) (a : string)
  : result loc :=
  match h !! o with
  | None => Err RuntimeError
  | Some m =>
      match dict_get a (m_modules m) with
      | Some v => Ok v
      | None => Err AttributeError
      end
  end.

(** Follow a path of attribute names from [o]; the empty path is [o]. *)
Fixpoint get_layer (h : list torch_module) (path : list string) (o : loc)
  : result loc :=
  match path with
  | [] => Ok o
  | a :: rest =>
      match getattr_module h o a with
      | Ok v => get_layer h rest v
      | Err e => Err e
      end
  end.

(** [setattr(o, a, v)] for a module [v]: the entry [a] of [o._modules]. *)
Definition setattr_module (h : list torch_module) (o : loc) (a : string)
    (v : loc) : result (list torch_module) :=
  match h !! o with
  | None => Err RuntimeError
  | Some m => Ok (<[o := set_modules (dict_set a v (m_modules m)) m]> h)
  end.

(** Modelled from the spec: [set_layer] of [llmcompressor.utils.pytorch]
    is not among the sources. It resolves the dotted path [target] from
    [owner] down to the parent of its last segment, reads the module that
    is there, and puts [new_layer] in its place. *)
Definition set_layer_heap (target : string) (new_layer : loc) (owner : loc)
    (h : list torch_module) : result (list torch_module) :=
  let (parent_path, attr) := split_last (split_dots target) in
  match get_layer h parent_path owner with
  | Err e => Err e
  | Ok parent =>
      match getattr_module h parent attr with
      | Err e => Err e
      | Ok _ => setattr_module h parent attr new_layer
      end
  end.

Definition set_layer (target : string) (new_layer : loc) (owner : loc)
  : M unit :=
  fun w =>
    match set_layer_heap target new_layer owner (heap w) with
    | Ok h' => (set_heap h' w, Ok tt)
    | Err e => (w, Err e)
    end.

(** [operator.attrgetter(name)(obj)]: [getattr] along the dotted name. *)
Definition attrgetter (dotted : string) (obj : loc) : M loc :=
  fun w => (w, get_layer (heap w) (split_dots dotted) obj).

Definition get_module (l : loc) : M torch_module :=
  fun w =>
    match heap w !! l with
    | Some m => (w, Ok m)
    | None => (w, Err RuntimeError)
    end.

(** ** Hooks and handles *)

(** [module.register_forward_hook(hook)]: the hook goes into the module's
    dict under a fresh id, and a handle for it is returned. *)
Definition register_forward_hook (l : loc) (hk : forward_hook) : M handle :=
  fun w =>
    match heap w !! l with
    | None => (w, Err RuntimeError)
    | Some m =>
        let id := next_hook_id w in
        let m' := set_forward_hooks (dict_set id hk (m_forward_hooks m)) m in
        (set_next_hook_id (S id) (set_heap (<[l := m']> (heap w)) w),
         Ok (Handle l ForwardHooks id))
    end.

(** [module.register_forward_pre_hook(hook, with_kwargs=True)]. *)
Definition register_forward_pre_hook (l : loc) (hk : forward_pre_hook)
  : M handle :=
  fun w =>
    match heap w !! l with
    | None => (w, Err RuntimeError)
    | Some m =>
        let id := next_hook_id w in
        let m' :=
          set_forward_pre_hooks (dict_set id hk (m_forward_pre_hooks m)) m in
        (set_next_hook_id (S id) (set_heap (<[l := m']> (heap w)) w),
         Ok (Handle l ForwardPreHooks id))
    end.

(** What [handle.remove()] does to the module it was issued for. *)
Definition remove_hook (hd : handle) (m : torch_module) : torch_module :=
  match h_kind hd with
  | ForwardHooks => set_forward_hooks (dict_del (h_id hd) (m_forward_hooks m)) m
  | ForwardPreHooks =>
      set_forward_pre_hooks (dict_del (h_id hd) (m_forward_pre_hooks m)) m
  end.

(** [handle.remove()]: delete the id from the dict when it is there. *)
Definition handle_remove (hd : handle) : M unit :=
  fun w =>
    match heap w !! h_module hd with
    | None => (w, Ok tt)
    | Some m => (set_heap (<[h_module hd := remove_hook hd m]> (heap w)) w, Ok tt)
    end.

(** [torch.no_grad()] around a body: gradient tracking is off inside and
    back to what it was afterwards, also when the body raises. *)
Definition no_grad {A : Type} (body : M A) : M A :=
  fun w =>
    let prev := grad_enabled w in
    match body (set_grad_enabled false w) with
    | (w', r) => (set_grad_enabled prev w', r)
    end.

(** [Module.apply(fn)]: the children first, each once, then the module
    itself. The fuel is Python's recursion limit. *)
Fixpoint dedup (seen : list loc) (ls : list loc) : list loc :=
  match ls with
  | [] => []
  | l :: rest =>
      if bool_decide (l ∈ seen) then dedup seen rest
      else l :: dedup (l :: seen) rest
  end.

(** [module.children()]: the child modules without repetitions. *)
Definition children (m : torch_module) : list loc :=
  dedup [] (map snd (m_modules m)).

Fixpoint module_apply (fuel : nat) (fn : loc -> M unit) (l : loc) : M unit :=
  match fuel with
  | O => raise RecursionError
  | S fuel' =>
      m <- get_module l ;;
      for_each (children m) (module_apply fuel' fn) ;;
      fn l
  end.

(** ** The methods of [LayerCompressor] *)

Section Methods.
Context `{Externals}.

(** [devices = [...]; for device in devices: torch.cuda.synchronize(device)]. *)
Definition synchronize_devices : M unit :=
  for_each (seq 0 cuda_device_count) (fun i => emit (EvSynchronize i)).

(** [compressible_modules]. *)
Definition compressible_modules : M (list (string * loc)) :=
  fun w => (w, Ok (get_prunable_layers (heap w) (layer (self w)))).

(** [_get_full_submodule_name]. *)
Definition _get_full_submodule_name (name0 : string) : M string :=
  fun w =>
    (w, Ok (fix_fsdp_module_name
              (String.concat "."
                 (filter (fun x => String.length x <> 0%nat)
                         [name (self w); name0])))).

(** Modelled from the spec: the constructor of the wrapper class,
    [module_compressor_class(full_name, layer)], is not among the
    sources. It makes a new module that keeps its name and holds the
    wrapped module as its child [layer]. *)
Definition new_wrapper (full_name : string) (wrapped : loc) : M loc :=
  fun w =>
    (set_heap (heap w ++
                 [MkModule (CompressionWrapper full_name) [("layer", wrapped)] [] []])
              w,
     Ok (length (heap w))).

(** [subset[name]]. *)
Definition subset_getitem (subset : list (string * loc)) (name0 : string)
  : M loc :=
  match dict_get name0 subset with
  | Some l => ret l
  | None => raise KeyError
  end.

(** [self.modules[name] = wrapper]. *)
Definition modules_setitem (name0 : string) (wrapper : loc) : M unit :=
  fun w =>
    match modules (self w) with
    | None => (w, Err TypeError)
    | Some d =>
        (set_self (set_modules_field (Some (dict_set name0 wrapper d)) (self w)) w,
         Ok tt)
    end.

(** The body of the first loop of [pre_compress]. *)
Definition wrap_module (subset : list (string * loc)) (name0 : string)
  : M unit :=
  layer0 <- subset_getitem subset name0 ;;
  full_name <- _get_full_submodule_name name0 ;;
  wrapper <- new_wrapper full_name layer0 ;;
  lc <- get_self ;;
  (if bool_decide (String.length name0 = 0%nat)
   then set_layer full_name wrapper (model lc)
   else set_layer name0 wrapper (layer lc)) ;;
  modules_setitem name0 wrapper.

(** The names to iterate in [for name in self.modules]. *)
Definition modules_keys : M (list string) :=
  fun w =>
    match modules (self w) with
    | None => (w, Err TypeError)
    | Some d => (w, Ok (map fst d))
    end.

(** The body of the second loop of [pre_compress]. *)
Definition hook_module (subset : list (string * loc)) (name0 : string)
  : M unit :=
  target <- subset_getitem subset name0 ;;
  hd <- register_forward_hook target (AddBatchHook name0) ;;
  lc <- get_self ;;
  put_self (set_handles (handles lc ++ [hd]) lc).

Definition pre_compress : M unit :=
  subset <- compressible_modules ;;
  for_each (map fst subset) (wrap_module subset) ;;
  lc <- get_self ;;
  l <- attrgetter (name lc) (model lc) ;;
  lc <- get_self ;;
  put_self (set_layer_field l lc) ;;
  names <- modules_keys ;;
  for_each names (hook_module subset).

(** [post_compress]. *)
Definition post_compress : M unit :=
  lc <- get_self ;;
  for_each (handles lc) handle_remove ;;
  lc <- get_self ;;
  put_self (set_handles [] lc).

(** The pairs to iterate in [for name, module_wrapper in
    self.modules.items()]. *)
Definition modules_items : M (list (string * loc)) :=
  fun w =>
    match modules (self w) with
    | None => (w, Err AttributeError)
    | Some d => (w, Ok d)
    end.

(** The body of the loop of [revert_layer_wrappers]. *)
Definition revert_module (item : string * loc) : M unit :=
  let (name0, module_wrapper) := item in
  full_name <- _get_full_submodule_name name0 ;;
  lc <- get_self ;;
  (if bool_decide (String.length name0 = 0%nat)
   then
     (w <- get_world ;;
      wrapped <- lift (getattr_module (heap w) module_wrapper "layer") ;;
      set_layer full_name wrapped (model lc))
   else
     (w <- get_world ;;
      wrapped <- lift (getattr_module (heap w) module_wrapper "layer") ;;
      set_layer name0 wrapped (layer lc))) ;;
  synchronize_devices ;;
  emit EvEmptyCache.

Definition revert_layer_wrappers : M unit :=
  items <- modules_items ;;
  for_each items revert_module ;;
  lc <- get_self ;;
  put_self (set_modules_field None lc).

(** Modelled from the spec: the wrapper's [compress] and [free] belong to the compression strategy, which is not among the
    sources; the orchestrator treats them as opaque, and they are
    recorded as events with the gradient mode they ran under. *)
Definition wrapper_compress (wrapper : loc) (kw : kwargs) : M unit :=
  fun w => emit (EvCompress wrapper kw (grad_enabled w)) w.

Definition wrapper_free (wrapper : loc) : M unit :=
  fun w => emit (EvFree wrapper (grad_enabled w)) w.

(** The inner function [compress_module] of [compress], with its
    [torch.no_grad()] decorator. *)
Definition compress_module (module : loc) : M unit :=
  no_grad
    (m <- get_module module ;;
     match m_class m with
     | CompressionWrapper wname =>
         _ <- _get_full_submodule_name wname ;;
         lc <- get_self ;;
         wrapper_compress module (args lc) ;;
         wrapper_free module
     | Plain => ret tt
     end).

(** [compress], run with the given recursion limit. *)
Definition compress (fuel : nat) : M unit :=
  lc <- get_self ;;
  module_apply fuel compress_module (layer lc) ;;
  synchronize_devices ;;
  emit EvEmptyCache.

(** [set_early_stop]. *)
Definition set_early_stop : M unit :=
  lc <- get_self ;;
  hd <- register_forward_pre_hook (layer lc) EarlyStopHook ;;
  lc <- get_self ;;
  put_self (set_early_stop_handle (Some hd) lc).

(** [clear_early_stop]. *)
Definition clear_early_stop : M unit :=
  lc <- get_self ;;
  match early_stop_handle lc with
  | Some hd =>
      handle_remove hd ;;
      lc <- get_self ;;
      put_self (set_early_stop_handle None lc)
  | None => ret tt
  end.

(** ** Calling a module *)

(** [trigger_early_stop_fn(self, args, kwargs)]. *)
Definition run_forward_pre_hook (hk : forward_pre_hook) (a : list pyobj)
    (kw : kwargs) : M unit :=
  match hk with
  | EarlyStopHook => raise (EarlyStopException a kw)
  end.

(** The hook [tmp(_, inp, out)] of [pre_compress]:
    [self.modules[name].add_batch(inp[0].data, out.data)]. *)
Definition run_forward_hook (hk : forward_hook) (inp : list pyobj)
    (out : pyobj) : M unit :=
  match hk with
  | AddBatchHook name0 =>
      lc <- get_self ;;
      match modules lc with
      | None => raise TypeError
      | Some d =>
          match dict_get name0 d with
          | None => raise KeyError
          | Some wrapper =>
              match inp with
              | [] => raise IndexError
              | PTensor ti :: _ =>
                  match out with
                  | PTensor to => emit (EvAddBatch wrapper ti to)
                  | _ => raise AttributeError
                  end
              | _ :: _ => raise AttributeError
              end
          end
      end
  end.

Definition run_forward_pre_hooks (l : loc) (a : list pyobj) (kw : kwargs)
  : M unit :=
  m <- get_module l ;;
  for_each (m_forward_pre_hooks m) (fun h => run_forward_pre_hook h.2 a kw).

Definition run_forward_hooks (l : loc) (a : list pyobj) (out : pyobj)
  : M unit :=
  m <- get_module l ;;
  for_each (m_forward_hooks m) (fun h => run_forward_hook h.2 a out).

(** Calling a module with positional and keyword arguments: the
    forward pre-hooks, the module's own
    [forward], then the forward hooks. *)
Definition module_call (l : loc) (a : list pyobj) (kw : kwargs) : M pyobj :=
  run_forward_pre_hooks l a kw ;;
  out <- forward l a kw ;;
  run_forward_hooks l a out ;;
  ret out.

(** The body of the loop of [calibrate_layer] for one index. The
    progress bar and its memory readings are display only. *)
Definition calibrate_sample (intermediates : list (list pyobj * kwargs))
    (outputs : list (option (pyobj * kwargs))) (idx : nat)
  : M (list (option (pyobj * kwargs))) :=
  match intermediates !! idx with
  | None => raise IndexError
  | Some (a, kw) =>
      w <- get_world ;;
      let device := get_execution_device (heap w) (layer (self w)) in
      output <- module_call (layer (self w))
                  (args_to_device a device) (kwargs_to_device kw device) ;;
      let outputs' := <[idx := Some (tensors_to_device output Cpu, kw)]> outputs in
      synchronize_devices ;;
      emit EvEmptyCache ;;
      emit EvGcCollect ;;
      ret outputs'
  end.

Fixpoint calibrate_loop (intermediates : list (list pyobj * kwargs))
    (idxs : list nat) (outputs : list (option (pyobj * kwargs)))
  : M (list (option (pyobj * kwargs))) :=
  match idxs with
  | [] => ret outputs
  | idx :: rest =>
      outputs' <- calibrate_sample intermediates outputs idx ;;
      calibrate_loop intermediates rest outputs'
  end.

(** [calibrate_layer]. *)
Definition calibrate_layer (intermediates : list (list pyobj * kwargs))
  : M (list (option (pyobj * kwargs))) :=
  calibrate_loop intermediates (seq 0 (length intermediates))
    (replicate (length intermediates) None).

End Methods.

(** ** Reasoning about actions *)

Lemma bind_ok {A B : Type} (c : M A) (k : A -> M B) w w1 a :
  c w = (w1, Ok a) -> bind c k w = k a w1.
Proof. unfold bind. now intros ->. Qed.

Lemma bind_err {A B : Type} (c : M A) (k : A -> M B) w w1 e :
  c w = (w1, Err e) -> bind c k w = (w1, Err e).
Proof. unfold bind. now intros ->. Qed.

Lemma bind_inv_ok {A B : Type} (c : M A) (k : A -> M B) w w2 b :
  bind c k w = (w2, Ok b) ->
  exists w1 a, c w = (w1, Ok a) /\ k a w1 = (w2, Ok b).
Proof.
  unfold bind. destruct (c w) as [w1 [a|e]]; [eauto | discriminate].
Qed.

Lemma for_each_app {A : Type} (xs ys : list A) (body : A -> M unit) w w1 :
  for_each xs body w = (w1, Ok tt) ->
  for_each (xs ++ ys) body w = for_each ys body w1.
Proof.
  revert w. induction xs as [|x xs IH]; intros w; simpl.
  - now intros [= <-].
  - intros (w0 & [] & Hx & Hxs)%bind_inv_ok.
    rewrite (bind_ok _ _ _ _ _ Hx). auto.
Qed.

(** Invert a successful run of an action built from [bind]. *)
Ltac inv_ok H :=
  repeat match type of H with
  | bind _ _ _ = (_, Ok _) =>
      let w := fresh "w" in
      let a := fresh "a" in
      let H1 := fresh "Hstep" in
      apply bind_inv_ok in H; destruct H as (w & a & H1 & H)
  end.

Section EarlyStop.
Context `{Externals}.

Lemma dict_set_cons {K V : Type} `{EqDecision K} (k : K) (v : V) d :
  exists p rest, dict_set k v d = p :: rest.
Proof.
  destruct d as [|[k' v'] d]; simpl; [eauto|].
  destruct (decide (k = k')); eauto.
Qed.

(** C4. Once [set_early_stop] has returned, calling the target layer
    with any arguments raises the early-stop signal that carries exactly
    those positional and keyword arguments. The world is the one before
    the call, whatever the layer's [forward] would have done, and what
    would follow the call (the later layers) does not run. *)
Theorem early_stop_raises_with_inputs {B : Type} (w w1 : world)
    (a : list pyobj) (kw : kwargs) (later : pyobj -> M B) :
  set_early_stop w = (w1, Ok tt) ->
  (out <- module_call (layer (self w)) a kw ;; later out) w1
  = (w1, Err (EarlyStopException a kw)).
Proof.
  unfold set_early_stop, get_self, register_forward_pre_hook, put_self, bind.
  destruct (heap w !! layer (self w)) as [m|] eqn:Hm; [|discriminate].
  intros [= <-]. simpl.
  unfold module_call, run_forward_pre_hooks, get_module, bind. simpl.
  rewrite list_lookup_insert_eq by (eapply lookup_lt_Some; eauto). simpl.
  destruct (dict_set_cons (next_hook_id w) EarlyStopHook (m_forward_pre_hooks m))
    as ([id []] & rest & ->).
  reflexivity.
Qed.

End EarlyStop.

(** ** Reverting twice *)

Section Revert.
Context `{Externals}.

Lemma revert_clears_registry w w1 :
  revert_layer_wrappers w = (w1, Ok tt) -> modules (self w1) = None.
Proof.
  unfold revert_layer_wrappers. intros Hrun. inv_ok Hrun.
  unfold put_self in Hrun. injection Hrun as <-. reflexivity.
Qed.

(** C2, as the code has it. After [revert_layer_wrappers] has returned,
    a second call on the same instance raises [AttributeError], because
    the registry is [None], and leaves the whole world, the module tree
    included, as the first call left it. *)
Theorem revert_twice_raises (w w1 : world) :
  revert_layer_wrappers w = (w1, Ok tt) ->
  revert_layer_wrappers w1 = (w1, Err AttributeError).
Proof.
  intros Hrun. apply revert_clears_registry in Hrun.
  unfold revert_layer_wrappers, modules_items, bind. now rewrite Hrun.
Qed.

End Revert.

(** ** Compressing the wrappers of a layer *)

(** The module tree below an object, as [Module.apply] walks it. *)
Inductive mtree := MNode (l : loc) (kids : list mtree).

Definition root (t : mtree) : loc :=
  match t with MNode l _ => l end.

(** Children before their parent, left to right. *)
Fixpoint postorder (t : mtree) : list loc :=
  match t with
  | MNode l kids => concat (map postorder kids) ++ [l]
  end.

Fixpoint depth (t : mtree) : nat :=
  match t with
  | MNode _ kids => S (foldr Nat.max 0%nat (map depth kids))
  end.

(** [t] is the tree the arena holds below [root t]: every node is an
    object of the arena and its subtrees are those of its children. *)
Fixpoint unfolds (h : list torch_module) (t : mtree) : bool :=
  match t with
  | MNode l kids =>
      match h !! l with
      | None => false
      | Some m =>
          bool_decide (map root kids = children m) && forallb (unfolds h) kids
      end
  end.

(** What [compress_module] asks of a visited module: a wrapper is
    compressed and then freed, with gradients off; any other module is
    left alone. *)
Definition wrapper_events (h : list torch_module) (kw : kwargs) (l : loc)
  : list event :=
  match h !! l with
  | Some m =>
      match m_class m with
      | CompressionWrapper _ => [EvCompress l kw false; EvFree l false]
      | Plain => []
      end
  | None => []
  end.

Lemma set_trace_id w : set_trace (trace w) w = w.
Proof. now destruct w. Qed.

Lemma set_trace_twice t1 t2 w : set_trace t2 (set_trace t1 w) = set_trace t2 w.
Proof. reflexivity. Qed.

Lemma for_each_emit {A : Type} (f : A -> event) (xs : list A) w :
  for_each xs (fun x => emit (f x)) w
  = (set_trace (trace w ++ map f xs) w, Ok tt).
Proof.
  revert w. induction xs as [|x xs IH]; intros w; simpl.
  - now rewrite app_nil_r, set_trace_id.
  - unfold bind, emit at 1. rewrite IH. simpl.
    now rewrite <- app_assoc.
Qed.

Section Compress.
Context `{Externals}.

Lemma synchronize_devices_run w :
  synchronize_devices w
  = (set_trace (trace w ++ map EvSynchronize (seq 0 cuda_device_count)) w, Ok tt).
Proof. apply for_each_emit. Qed.

Lemma compress_module_run l m w :
  heap w !! l = Some m ->
  compress_module l w
  = (set_trace (trace w ++ wrapper_events (heap w) (args (self w)) l) w, Ok tt).
Proof.
  intros Hm. unfold compress_module, no_grad, wrapper_events, get_module, bind.
  simpl. rewrite Hm.
  destruct (m_class m) as [|wname]; simpl.
  - rewrite app_nil_r. now destruct w.
  - unfold set_trace, set_grad_enabled. simpl. now rewrite <- app_assoc.
Qed.

Lemma depth_kids_le kids fuel :
  foldr Nat.max 0%nat (map depth kids) <= fuel ->
  Forall (fun k => depth k <= fuel) kids.
Proof.
  induction kids as [|k kids IH]; simpl; constructor; [lia | apply IH; lia].
Qed.

Lemma module_apply_run fuel : forall t w,
  unfolds (heap w) t = true ->
  depth t <= fuel ->
  module_apply fuel compress_module (root t) w
  = (set_trace
       (trace w ++
        concat (map (wrapper_events (heap w) (args (self w))) (postorder t))) w,
     Ok tt).
Proof.
  induction fuel as [|fuel IH]; intros [l kids] w Hu Hd; simpl in Hd; [lia|].
  simpl in Hu. destruct (heap w !! l) as [m|] eqn:Hm; [|discriminate].
  apply andb_true_iff in Hu as [Hkids Hall].
  apply bool_decide_eq_true in Hkids.
  cbn [module_apply root]. unfold get_module at 1, bind at 1. rewrite Hm.
  rewrite <- Hkids.
  assert (Hloop : forall ks w0,
    heap w0 = heap w -> self w0 = self w ->
    forallb (unfolds (heap w)) ks = true ->
    Forall (fun k => depth k <= fuel) ks ->
    for_each (map root ks) (module_apply fuel compress_module) w0
    = (set_trace
         (trace w0 ++
          concat (map (wrapper_events (heap w) (args (self w)))
                      (concat (map postorder ks)))) w0, Ok tt)).
  { induction ks as [|k ks IHks]; intros w0 Hh Hs Hf Hle; simpl.
    - now rewrite app_nil_r, set_trace_id.
    - apply andb_true_iff in Hf as [Hk Hf].
      inversion Hle as [|? ? Hk_le Hks_le]; subst.
      unfold bind. rewrite IH by (rewrite ?Hh; auto).
      rewrite IHks by auto.
      simpl. rewrite Hh, Hs.
      rewrite map_app, concat_app, app_assoc. reflexivity. }
  unfold bind.
  rewrite Hloop by (auto; apply depth_kids_le; lia).
  erewrite compress_module_run by (simpl; eauto).
  simpl. rewrite map_app, concat_app. simpl.
  rewrite app_nil_r, app_assoc. reflexivity.
Qed.

(** C6. Let [t] be the module tree of the layer and let the recursion
    limit cover its depth. Then [compress] returns, and what it asks of
    the collaborators is, in this order: for each wrapper of the tree
    and for no other module, in depth-first order, [compress] with the
    stored arguments immediately followed by [free], both with gradient
    tracking off; then the device synchronisations and the cache
    release. Nothing else of the world changes. *)
Theorem compress_visits_wrappers_depth_first (fuel : nat) (w : world)
    (t : mtree) :
  root t = layer (self w) ->
  unfolds (heap w) t = true ->
  depth t <= fuel ->
  compress fuel w
  = (set_trace
       (trace w ++
        concat (map (wrapper_events (heap w) (args (self w))) (postorder t)) ++
        map EvSynchronize (seq 0 cuda_device_count) ++ [EvEmptyCache]) w,
     Ok tt).
Proof.
  intros Hroot Hu Hd. unfold compress, get_self, bind.
  rewrite <- Hroot, (module_apply_run fuel t w Hu Hd).
  rewrite synchronize_devices_run. unfold emit. simpl.
  now rewrite <- !app_assoc.
Qed.

End Compress.

(** ** Calibrating a layer *)

Fixpoint tensors_to_device_on_device (d : device) (o : pyobj) {struct o} :
  on_device d (tensors_to_device o d) = true.
Proof.
  destruct o as [t|xs|]; simpl.
  - now apply bool_decide_eq_true.
  - induction xs as [|x xs IH]; simpl; [reflexivity|].
    now rewrite tensors_to_device_on_device, IH.
  - reflexivity.
Qed.

(** [o'] is [o] moved to the device [d]: the same structure, and every
    tensor with the shape and the entries it had, on [d]. *)
Inductive moved (d : device) : pyobj -> pyobj -> Prop :=
  | moved_tensor t t' :
      t_device t' = d -> t_shape t' = t_shape t -> t_data t' = t_data t ->
      moved d (PTensor t) (PTensor t')
  | moved_seq xs xs' :
      Forall2 (moved d) xs xs' -> moved d (PSeq xs) (PSeq xs')
  | moved_none : moved d PNone PNone.

(** Keyword arguments moved to [d]: the same names in the same order,
    each value moved. *)
Definition moved_kwargs (d : device) (kw kw' : kwargs) : Prop :=
  Forall2 (fun kv kv' => kv'.1 = kv.1 /\ moved d kv.2 kv'.2) kw kw'.

Fixpoint tensors_to_device_moved (d : device) (o : pyobj) {struct o} :
  moved d o (tensors_to_device o d).
Proof.
  destruct o as [t|xs|]; simpl.
  - now constructor.
  - constructor. induction xs as [|x xs IH]; simpl; constructor.
    + apply tensors_to_device_moved.
    + exact IH.
  - constructor.
Qed.

(** Moving is a function: there is one result only. *)
Fixpoint moved_unique (d : device) (o : pyobj) {struct o} :
  forall o', moved d o o' -> o' = tensors_to_device o d.
Proof.
  destruct o as [t|xs|]; intros o' Hm.
  - inversion Hm as [t0 t' Hd Hs Hdat| |]; subst. simpl.
    destruct t' as [dev' sh' dat']. simpl in *. now subst.
  - inversion Hm as [|xs0 xs' HF|]; subst. simpl. f_equal.
    clear Hm. revert xs' HF.
    induction xs as [|x xs IH]; intros xs' HF; inversion HF; subst; simpl.
    + reflexivity.
    + f_equal; [now apply moved_unique | now apply IH].
  - inversion Hm. reflexivity.
Qed.

Lemma moved_on_device d o o' : moved d o o' -> on_device d o' = true.
Proof.
  intros ->%moved_unique. apply tensors_to_device_on_device.
Qed.

Lemma args_to_device_moved d a : Forall2 (moved d) a (args_to_device a d).
Proof.
  induction a as [|x a IH]; simpl; constructor; auto.
  apply tensors_to_device_moved.
Qed.

Lemma moved_args_unique d a a' :
  Forall2 (moved d) a a' -> a' = args_to_device a d.
Proof.
  induction 1 as [|x x' a a' Hx _ IH]; simpl; [reflexivity|].
  now rewrite (moved_unique _ _ _ Hx), IH.
Qed.

Lemma kwargs_to_device_moved d kw : moved_kwargs d kw (kwargs_to_device kw d).
Proof.
  induction kw as [|kv kw IH]; simpl; constructor; auto.
  split; [reflexivity|]. apply tensors_to_device_moved.
Qed.

Lemma moved_kwargs_unique d kw kw' :
  moved_kwargs d kw kw' -> kw' = kwargs_to_device kw d.
Proof.
  induction 1 as [|kv kv' kw kw' [Hk Hv] _ IH]; simpl; [reflexivity|].
  rewrite IH. f_equal. destruct kv' as [k' v']. simpl in *.
  now rewrite Hk, (moved_unique _ _ _ Hv).
Qed.

Section Calibrate.
Context `{Externals}.

(** The world after the housekeeping that follows one sample. *)
Definition after_sample (w : world) : world :=
  set_trace
    (trace w ++ map EvSynchronize (seq 0 cuda_device_count) ++
     [EvEmptyCache; EvGcCollect]) w.

(** The specification of a calibration run, sample by sample: the layer
    is called on the positional and keyword arguments of the
    intermediate moved to the layer's execution device, its output
    moved to host memory is paired with the intermediate's own keyword
    arguments, and the next sample starts from the world the call and
    the housekeeping left. *)
Inductive calibrated :
  world -> list (list pyobj * kwargs) -> list (pyobj * kwargs) -> world -> Prop :=
  | calibrated_nil w : calibrated w [] [] w
  | calibrated_cons w a kw rest a' kw' out out' w1 outs w' :
      Forall2 (moved (get_execution_device (heap w) (layer (self w)))) a a' ->
      moved_kwargs (get_execution_device (heap w) (layer (self w))) kw kw' ->
      module_call (layer (self w)) a' kw' w = (w1, Ok out) ->
      moved Cpu out out' ->
      calibrated (after_sample w1) rest outs w' ->
      calibrated w ((a, kw) :: rest) ((out', kw) :: outs) w'.

Lemma calibrated_shape w ins results w' :
  calibrated w ins results w' ->
  length results = length ins /\
  map snd results = map snd ins /\
  Forall (fun r => on_device Cpu r.1 = true) results.
Proof.
  induction 1 as [|w a kw rest a' kw' out out' w1 outs w' _ _ _ Hout _
                    (IH1 & IH2 & IH3)]; simpl.
  - repeat split; constructor.
  - repeat split; [now f_equal | now f_equal |].
    constructor; [now apply (moved_on_device _ out) | assumption].
Qed.

(** One sample of a run, with the moves as the code makes them. *)
Lemma calibrated_step w a kw rest out w1 outs w' :
  module_call (layer (self w))
    (args_to_device a (get_execution_device (heap w) (layer (self w))))
    (kwargs_to_device kw (get_execution_device (heap w) (layer (self w))))
    w = (w1, Ok out) ->
  calibrated (after_sample w1) rest outs w' ->
  calibrated w ((a, kw) :: rest) ((tensors_to_device out Cpu, kw) :: outs) w'.
Proof.
  intros Hcall Hrest. eapply calibrated_cons; eauto.
  - apply args_to_device_moved.
  - apply kwargs_to_device_moved.
  - apply tensors_to_device_moved.
Qed.

Lemma calibrated_inv w a kw rest results w' :
  calibrated w ((a, kw) :: rest) results w' ->
  exists out w1 outs,
    module_call (layer (self w))
      (args_to_device a (get_execution_device (heap w) (layer (self w))))
      (kwargs_to_device kw (get_execution_device (heap w) (layer (self w))))
      w = (w1, Ok out) /\
    results = (tensors_to_device out Cpu, kw) :: outs /\
    calibrated (after_sample w1) rest outs w'.
Proof.
  intros Hc.
  inversion Hc as [|? ? ? ? a' kw' out out' w1 outs ? Ha Hkw Hcall Hout Hrest];
    subst.
  apply moved_args_unique in Ha. apply moved_kwargs_unique in Hkw.
  apply moved_unique in Hout. subst. eauto 10.
Qed.

Lemma calibrate_sample_run ins outputs idx a kw w :
  ins !! idx = Some (a, kw) ->
  calibrate_sample ins outputs idx w =
  match module_call (layer (self w))
          (args_to_device a (get_execution_device (heap w) (layer (self w))))
          (kwargs_to_device kw (get_execution_device (heap w) (layer (self w))))
          w with
  | (w1, Ok out) =>
      (after_sample w1, Ok (<[idx := Some (tensors_to_device out Cpu, kw)]> outputs))
  | (w1, Err e) => (w1, Err e)
  end.
Proof.
  intros Hidx. unfold calibrate_sample. rewrite Hidx.
  unfold get_world, bind at 1.
  unfold bind at 1.
  destruct (module_call _ _ _ w) as [w1 [out|e]]; [|reflexivity].
  unfold bind. rewrite synchronize_devices_run. unfold emit, ret, after_sample.
  simpl. now rewrite <- !app_assoc.
Qed.

Lemma calibrate_loop_spec ins : forall rest pre done w w' outputs,
  ins = pre ++ rest ->
  length done = length pre ->
  calibrate_loop ins (seq (length pre) (length rest))
    (map Some done ++ replicate (length rest) None) w = (w', Ok outputs) <->
  exists results,
    outputs = map Some (done ++ results) /\ calibrated w rest results w'.
Proof.
  induction rest as [|[a kw] rest IH]; intros pre done w w' outputs Hins Hlen.
  - simpl. rewrite !app_nil_r. split.
    + intros [= <- <-]. exists []. rewrite app_nil_r. split; [reflexivity|constructor].
    + intros (results & -> & Hc). inversion Hc; subst.
      now rewrite app_nil_r.
  - cbn [length seq calibrate_loop replicate].
    assert (Hidx : ins !! length pre = Some (a, kw)).
    { rewrite Hins. now apply list_lookup_middle. }
    unfold bind. rewrite (calibrate_sample_run _ _ _ _ _ _ Hidx).
    destruct (module_call _ _ _ w) as [w1 [out|e]] eqn:Hcall.
    + replace (<[length pre := Some (tensors_to_device out Cpu, kw)]>
                 (map Some done ++ None :: replicate (length rest) None))
        with (map Some (done ++ [(tensors_to_device out Cpu, kw)]) ++
              replicate (length rest) None).
      2:{ rewrite insert_app_r_alt by (rewrite length_map; lia).
          rewrite length_map, Hlen, Nat.sub_diag. simpl.
          rewrite map_app. simpl. now rewrite <- app_assoc. }
      assert (Hpre : length (pre ++ [(a, kw)]) = S (length pre))
        by (rewrite length_app; simpl; lia).
      destruct (IH (pre ++ [(a, kw)]) (done ++ [(tensors_to_device out Cpu, kw)])
                   (after_sample w1) w' outputs) as [IH1 IH2].
      { now rewrite Hins, <- app_assoc. }
      { rewrite Hpre, length_app. simpl. lia. }
      rewrite Hpre in IH1, IH2.
      split.
      * intros (results & -> & Hc)%IH1. eexists. split.
        -- now rewrite <- app_assoc.
        -- eapply calibrated_step; eauto.
      * intros (results & -> & Hc).
        apply calibrated_inv in Hc as (out' & w1' & outs & Hcall' & -> & Hrest).
        rewrite Hcall in Hcall'. injection Hcall' as <- <-.
        apply IH2. exists outs. split; [now rewrite <- app_assoc | assumption].
    + split; [discriminate|].
      intros (results & _ & Hc).
      apply calibrated_inv in Hc as (out' & w1' & outs & Hcall' & _).
      congruence.
Qed.

(** C5. [calibrate_layer] returns exactly when every call of the layer
    returns, and what it returns is then the list of the specification:
    one element per captured intermediate, in the same order. For the
    i-th call the positional and the keyword arguments of the i-th
    intermediate are moved to the layer's execution device (every
    tensor on that device, with its shape and entries, nothing else
    changed), and the i-th element pairs the output of that call, moved
    to host memory in the same sense, with the i-th intermediate's own
    keyword arguments as they were captured. *)
Theorem calibrate_layer_outputs
    (intermediates : list (list pyobj * kwargs)) (w w' : world)
    (outputs : list (option (pyobj * kwargs))) :
  (calibrate_layer intermediates w = (w', Ok outputs) <->
   exists results,
     outputs = map Some results /\ calibrated w intermediates results w') /\
  (forall results,
     calibrated w intermediates results w' ->
     length results = length intermediates /\
     map snd results = map snd intermediates /\
     Forall (fun r => on_device Cpu r.1 = true) results).
Proof.
  split; [|intros results; apply calibrated_shape].
  unfold calibrate_layer.
  apply (calibrate_loop_spec intermediates intermediates [] [] w w' outputs);
    reflexivity.
Qed.

End Calibrate.

(** ** Substituting wrappers and reverting them *)

(** *** Dicts *)

Section DictFacts.
Context {K V : Type} `{EqDecision K}.
Implicit Types (k : K) (v : V) (d : list (K * V)).

Lemma dict_get_set k k' v d :
  dict_get k' (dict_set k v d) = if decide (k' = k) then Some v else dict_get k' d.
Proof.
  induction d as [|[k0 v0] d IH]; simpl.
  - destruct (decide (k' = k)); reflexivity.
  - destruct (decide (k = k0)) as [->|Hne]; simpl.
    + destruct (decide (k' = k0)); reflexivity.
    + destruct (decide (k' = k0)) as [->|Hne'].
      * rewrite decide_False by congruence. reflexivity.
      * apply IH.
Qed.

Lemma dict_get_Some_keys k v d : dict_get k d = Some v -> k ∈ map fst d.
Proof.
  induction d as [|[k0 v0] d IH]; simpl; [discriminate|].
  destruct (decide (k = k0)) as [->|]; intros Hg.
  - apply list_elem_of_here.
  - apply list_elem_of_further. auto.
Qed.

Lemma dict_get_Some_elem k v d : dict_get k d = Some v -> (k, v) ∈ d.
Proof.
  induction d as [|[k0 v0] d IH]; simpl; [discriminate|].
  destruct (decide (k = k0)) as [->|]; intros Hg.
  - injection Hg as ->. apply list_elem_of_here.
  - apply list_elem_of_further. auto.
Qed.

Lemma dict_get_keys_Some k d : k ∈ map fst d -> exists v, dict_get k d = Some v.
Proof.
  induction d as [|[k0 v0] d IH]; simpl.
  - intros Hin. now apply elem_of_nil in Hin.
  - intros Hin. destruct (decide (k = k0)); [eauto|].
    apply elem_of_cons in Hin as [?|?]; [contradiction | auto].
Qed.

Lemma dict_set_keys_present k v d :
  k ∈ map fst d -> map fst (dict_set k v d) = map fst d.
Proof.
  induction d as [|[k0 v0] d IH]; simpl.
  - intros Hin. now apply elem_of_nil in Hin.
  - intros Hin. destruct (decide (k = k0)) as [->|Hne]; simpl; [reflexivity|].
    f_equal. apply IH. apply elem_of_cons in Hin as [?|?]; [contradiction | auto].
Qed.

Lemma dict_set_keys_absent k v d :
  k ∉ map fst d -> map fst (dict_set k v d) = map fst d ++ [k].
Proof.
  induction d as [|[k0 v0] d IH]; simpl; [reflexivity|].
  intros Hnin. destruct (decide (k = k0)) as [->|Hne]; simpl.
  - exfalso. apply Hnin, list_elem_of_here.
  - f_equal. apply IH. intros Hin. apply Hnin. now apply list_elem_of_further.
Qed.

Lemma dict_set_keys_elem k k' v d :
  k' ∈ map fst (dict_set k v d) <-> k' = k \/ k' ∈ map fst d.
Proof.
  destruct (decide (k ∈ map fst d)) as [Hin|Hnin].
  - rewrite dict_set_keys_present by assumption. split; [auto|].
    intros [->|?]; auto.
  - rewrite dict_set_keys_absent by assumption.
    rewrite elem_of_app, list_elem_of_singleton. tauto.
Qed.

Lemma dict_get_del_ne k k' d :
  k' <> k -> dict_get k' (dict_del k d) = dict_get k' d.
Proof.
  intros Hne. induction d as [|[k0 v0] d IH]; simpl; [reflexivity|].
  destruct (decide (k = k0)) as [->|Hne0]; simpl.
  - now rewrite decide_False by assumption.
  - destruct (decide (k' = k0)); auto.
Qed.

End DictFacts.

(** *** Heaps *)

Lemma getattr_module_Ok h o a v :
  getattr_module h o a = Ok v <->
  exists m, h !! o = Some m /\ dict_get a (m_modules m) = Some v.
Proof.
  unfold getattr_module. split.
  - destruct (h !! o) as [m|]; [|discriminate].
    destruct (dict_get a (m_modules m)) eqn:Hg; [|discriminate].
    intros [= <-]. eauto.
  - intros (m & -> & ->). reflexivity.
Qed.

Lemma set_layer_heap_at target new_layer owner h ppath attr p m old :
  split_last (split_dots target) = (ppath, attr) ->
  get_layer h ppath owner = Ok p ->
  h !! p = Some m ->
  dict_get attr (m_modules m) = Some old ->
  set_layer_heap target new_layer owner h
  = Ok (<[p := set_modules (dict_set attr new_layer (m_modules m)) m]> h).
Proof.
  intros Hs Hp Hm Hold. unfold set_layer_heap. rewrite Hs, Hp.
  unfold getattr_module, setattr_module. now rewrite Hm, Hold.
Qed.

(** *** Where a name points *)

Section Addressing.
Context `{Externals}.

(** The value of [_get_full_submodule_name(name0)] for an instance. *)
Definition full_submodule_name (lc : LayerCompressor) (name0 : string) : string :=
  fix_fsdp_module_name
    (String.concat "."
       (filter (fun x => String.length x <> 0%nat) [name lc; name0])).

(** The owner and the dotted path that [pre_compress] and
    [revert_layer_wrappers] hand to [set_layer] for a name: the root
    model and the full name when the name is empty, the layer and the
    name itself otherwise. *)
Definition target_of (lc : LayerCompressor) (name0 : string) : loc * string :=
  if bool_decide (String.length name0 = 0%nat)
  then (model lc, full_submodule_name lc name0)
  else (layer lc, name0).

(** The slot a name addresses: the parent object and the attribute. *)
Definition slot_of (h : list torch_module) (lc : LayerCompressor)
    (name0 : string) : result (loc * string) :=
  let (ppath, attr) := split_last (split_dots (target_of lc name0).2) in
  match get_layer h ppath (target_of lc name0).1 with
  | Ok parent => Ok (parent, attr)
  | Err e => Err e
  end.

(** A module without child modules. *)
Definition is_leaf (h : list torch_module) (l : loc) : bool :=
  match h !! l with
  | Some m => bool_decide (m_modules m = [])
  | None => false
  end.

(** An entry of the compressible modules is well addressed when its
    name leads to a slot that holds the entry's module, and the module
    is a leaf. *)
Definition addressed (h : list torch_module) (lc : LayerCompressor)
    (item : string * loc) : bool :=
  match slot_of h lc item.1 with
  | Ok (parent, attr) =>
      match getattr_module h parent attr with
      | Ok l => bool_decide (l = item.2) && is_leaf h item.2
      | Err _ => false
      end
  | Err _ => false
  end.

Definition well_addressed (h : list torch_module) (lc : LayerCompressor)
    (subset : list (string * loc)) : bool :=
  forallb (addressed h lc) subset.

Lemma addressed_spec h lc n l :
  addressed h lc (n, l) = true ->
  exists ppath attr parent m0,
    split_last (split_dots (target_of lc n).2) = (ppath, attr) /\
    get_layer h ppath (target_of lc n).1 = Ok parent /\
    slot_of h lc n = Ok (parent, attr) /\
    h !! parent = Some m0 /\
    dict_get attr (m_modules m0) = Some l /\
    is_leaf h l = true.
Proof.
  unfold addressed, slot_of. simpl.
  destruct (split_last _) as [ppath attr] eqn:Hs.
  destruct (get_layer h ppath _) as [parent|] eqn:Hp; [|discriminate].
  destruct (getattr_module h parent attr) as [l'|] eqn:Hg; [|discriminate].
  intros [->%bool_decide_eq_true Hleaf]%andb_true_iff.
  apply getattr_module_Ok in Hg as (m0 & Hm0 & Hd).
  exists ppath, attr, parent, m0. auto 10.
Qed.

Lemma is_leaf_no_attr h l a v : is_leaf h l = true -> getattr_module h l a <> Ok v.
Proof.
  unfold is_leaf, getattr_module. destruct (h !! l) as [m|]; [|discriminate].
  intros ->%bool_decide_eq_true. discriminate.
Qed.

Lemma is_leaf_get_layer h l path p :
  is_leaf h l = true -> get_layer h path l = Ok p -> path = [] /\ p = l.
Proof.
  intros Hleaf. destruct path as [|a rest]; simpl.
  - intros [= <-]. auto.
  - destruct (getattr_module h l a) eqn:Hg; [|discriminate].
    now apply is_leaf_no_attr in Hg.
Qed.

End Addressing.

(** *** The invariant of a substitution in progress *)

Section Invariant.
Context `{Externals}.
Variable h0 : list torch_module.
Variable lc0 : LayerCompressor.

(** The value [v] found in slot [(o, a)] against the original [v0]:
    either the original, or a new object standing in for an original
    leaf that one of the names [D] addresses. *)
Definition slot_ok (D : list string) (o : loc) (a : string) (v0 v : loc) : Prop :=
  v = v0 \/
  (is_leaf h0 v0 = true /\ length h0 <= v /\
   exists n, n ∈ D /\ slot_of h0 lc0 n = Ok (o, a)).

(** Every original object is still there with the same child names, and
    each child is the original one unless its slot is addressed by a
    name of [D]. *)
Definition Inv (D : list string) (h : list torch_module) : Prop :=
  length h0 <= length h /\
  forall o m0, h0 !! o = Some m0 ->
    exists m, h !! o = Some m /\
      map fst (m_modules m) = map fst (m_modules m0) /\
      forall a v0, dict_get a (m_modules m0) = Some v0 ->
        exists v, dict_get a (m_modules m) = Some v /\ slot_ok D o a v0 v.

Lemma Inv_init D : Inv D h0.
Proof.
  split; [lia|]. intros o m0 Hm0. exists m0. repeat split; auto.
  intros a v0 Hv0. exists v0. split; [assumption | now left].
Qed.

Lemma Inv_same_tree D h h' :
  map m_modules h' = map m_modules h -> Inv D h -> Inv D h'.
Proof.
  intros Hmap [Hlen Hinv]. split.
  - rewrite <- (length_map m_modules h'), Hmap, length_map. exact Hlen.
  - intros o m0 Hm0. destruct (Hinv o m0 Hm0) as (m & Hm & Hkeys & Hslots).
    assert (Hlook : m_modules <$> (h' !! o) = m_modules <$> (h !! o)).
    { rewrite <- !list_lookup_fmap. unfold fmap, list_fmap in *.
      change (map m_modules h' !! o = map m_modules h !! o). now rewrite Hmap. }
    rewrite Hm in Hlook. simpl in Hlook.
    destruct (h' !! o) as [m'|]; [|discriminate].
    injection Hlook as Hlook. exists m'. rewrite Hlook. auto.
Qed.

Lemma Inv_alloc D h m : Inv D h -> Inv D (h ++ [m]).
Proof.
  intros [Hlen Hinv]. split.
  - rewrite length_app. lia.
  - intros o m0 Hm0. destruct (Hinv o m0 Hm0) as (m1 & Hm1 & Hrest).
    exists m1. split; [|exact Hrest].
    apply lookup_app_l_Some. exact Hm1.
Qed.

(** Writing a slot of an original object. *)
Lemma Inv_write D D' h p a v' m0 m v0 :
  Inv D h ->
  h0 !! p = Some m0 ->
  h !! p = Some m ->
  dict_get a (m_modules m0) = Some v0 ->
  slot_ok D' p a v0 v' ->
  (forall o b w0 w, (o, b) <> (p, a) -> slot_ok D o b w0 w -> slot_ok D' o b w0 w) ->
  Inv D' (<[p := set_modules (dict_set a v' (m_modules m)) m]> h).
Proof.
  intros [Hlen Hinv] Hm0 Hm Hv0 Hnew Hother. split.
  - now rewrite length_insert.
  - intros o n0 Hn0. destruct (Hinv o n0 Hn0) as (n & Hn & Hkeys & Hslots).
    destruct (decide (o = p)) as [->|Hne].
    + assert (n0 = m0) by congruence. assert (n = m) by congruence. subst.
      eexists. split.
      { apply list_lookup_insert_eq. eapply lookup_lt_Some; eauto. }
      simpl. split.
      * rewrite dict_set_keys_present; [assumption|].
        rewrite Hkeys. eapply dict_get_Some_keys; eauto.
      * intros b w0 Hw0. rewrite dict_get_set.
        destruct (decide (b = a)) as [->|Hb].
        -- assert (w0 = v0) by congruence. subst. eauto.
        -- destruct (Hslots b w0 Hw0) as (w & Hw & Hok).
           exists w. split; [assumption|]. apply Hother; [congruence | assumption].
    + exists n. split; [now rewrite list_lookup_insert_ne|].
      split; [assumption|].
      intros b w0 Hw0. destruct (Hslots b w0 Hw0) as (w & Hw & Hok).
      exists w. split; [assumption|]. apply Hother; [congruence | assumption].
Qed.

Lemma slot_ok_mono D D' o a v0 v :
  (forall n, n ∈ D -> n ∈ D') -> slot_ok D o a v0 v -> slot_ok D' o a v0 v.
Proof.
  intros Hsub [->|(Hleaf & Hfresh & n & Hn & Hslot)]; [now left|].
  right. eauto 10.
Qed.

Lemma Inv_mono D D' h : (forall n, n ∈ D -> n ∈ D') -> Inv D h -> Inv D' h.
Proof.
  intros Hsub [Hlen Hinv]. split; [assumption|].
  intros o m0 Hm0. destruct (Hinv o m0 Hm0) as (m & Hm & Hkeys & Hslots).
  exists m. repeat split; auto. intros a v0 Hv0.
  destruct (Hslots a v0 Hv0) as (v & Hv & Hok). eauto using slot_ok_mono.
Qed.

(** A path that ends in an original object with children resolves as
    it did originally. *)
Lemma get_layer_stable D h path : forall o p,
  Inv D h ->
  get_layer h0 path o = Ok p ->
  is_leaf h0 p = false ->
  get_layer h path o = Ok p.
Proof.
  induction path as [|a rest IH]; intros o p HI; simpl; [auto|].
  destruct (getattr_module h0 o a) as [v|] eqn:Hg; [|discriminate].
  intros Hrest Hp.
  apply getattr_module_Ok in Hg as (m0 & Hm0 & Hv).
  destruct HI as [Hlen Hinv].
  destruct (Hinv o m0 Hm0) as (m & Hm & _ & Hslots).
  destruct (Hslots a v Hv) as (v' & Hv' & [->|(Hleaf & _)]).
  - replace (getattr_module h o a) with (Ok v (A:=loc))
      by (symmetry; apply getattr_module_Ok; eauto).
    apply IH; [split|..]; assumption.
  - destruct (is_leaf_get_layer _ _ _ _ Hleaf Hrest) as [_ ->]. congruence.
Qed.

(** Any path that resolved originally still resolves, to the same
    object or to a new one standing in for an original leaf. *)
Lemma get_layer_total D h path : forall o p,
  Inv D h ->
  get_layer h0 path o = Ok p ->
  exists p', get_layer h path o = Ok p' /\
             (p' = p \/ is_leaf h0 p = true).
Proof.
  induction path as [|a rest IH]; intros o p HI; simpl.
  - intros [= <-]. eauto.
  - destruct (getattr_module h0 o a) as [v|] eqn:Hg; [|discriminate].
    intros Hrest.
    apply getattr_module_Ok in Hg as (m0 & Hm0 & Hv).
    pose proof HI as [Hlen Hinv].
    destruct (Hinv o m0 Hm0) as (m & Hm & _ & Hslots).
    destruct (Hslots a v Hv) as (v' & Hv' & Hok).
    replace (getattr_module h o a) with (Ok v' (A:=loc))
      by (symmetry; apply getattr_module_Ok; eauto).
    destruct Hok as [->|(Hleaf & _)]; [now apply IH|].
    destruct (is_leaf_get_layer _ _ _ _ Hleaf Hrest) as [-> ->].
    simpl. eauto.
Qed.

End Invariant.

(** *** The loop bodies in one step *)

Section Steps.
Context `{Externals}.

(** The module that [new_wrapper] makes. *)
Definition wrapper_module (lc : LayerCompressor) (name0 : string) (wrapped : loc)
  : torch_module :=
  MkModule (CompressionWrapper (full_submodule_name lc name0))
           [("layer", wrapped)] [] [].

Lemma wrap_module_eq subset n w :
  wrap_module subset n w =
  match dict_get n subset with
  | None => (w, Err KeyError)
  | Some l =>
      let h1 := heap w ++ [wrapper_module (self w) n l] in
      match set_layer_heap (target_of (self w) n).2 (length (heap w))
              (target_of (self w) n).1 h1 with
      | Err e => (set_heap h1 w, Err e)
      | Ok h2 =>
          match modules (self w) with
          | None => (set_heap h2 w, Err TypeError)
          | Some d =>
              (set_self
                 (set_modules_field (Some (dict_set n (length (heap w)) d)) (self w))
                 (set_heap h2 w), Ok tt)
          end
      end
  end.
Proof.
  unfold wrap_module, subset_getitem, bind at 1.
  destruct (dict_get n subset) as [l|]; [|reflexivity].
  unfold ret, _get_full_submodule_name, new_wrapper, get_self, bind.
  unfold target_of, set_layer, modules_setitem, wrapper_module, full_submodule_name.
  simpl.
  destruct (bool_decide (String.length n = 0%nat)); simpl;
    destruct (set_layer_heap _ _ _ _); simpl; try reflexivity;
    destruct (modules (self w)); reflexivity.
Qed.

Lemma hook_module_eq subset n w :
  hook_module subset n w =
  match dict_get n subset with
  | None => (w, Err KeyError)
  | Some l =>
      match heap w !! l with
      | None => (w, Err RuntimeError)
      | Some m =>
          let id := next_hook_id w in
          (set_self
             (set_handles (handles (self w) ++ [Handle l ForwardHooks id]) (self w))
             (set_next_hook_id (S id)
                (set_heap
                   (<[l := set_forward_hooks
                             (dict_set id (AddBatchHook n) (m_forward_hooks m)) m]>
                      (heap w)) w)),
           Ok tt)
      end
  end.
Proof.
  unfold hook_module, subset_getitem, bind at 1.
  destruct (dict_get n subset) as [l|]; [|reflexivity].
  unfold ret, register_forward_hook, bind.
  destruct (heap w !! l); reflexivity.
Qed.

Lemma revert_module_eq n wrapper w :
  revert_module (n, wrapper) w =
  match getattr_module (heap w) wrapper "layer" with
  | Err e => (w, Err e)
  | Ok wrapped =>
      match set_layer_heap (target_of (self w) n).2 wrapped
              (target_of (self w) n).1 (heap w) with
      | Err e => (w, Err e)
      | Ok h2 =>
          (set_trace
             (trace w ++ map EvSynchronize (seq 0 cuda_device_count) ++ [EvEmptyCache])
             (set_heap h2 w), Ok tt)
      end
  end.
Proof.
  unfold revert_module, _get_full_submodule_name, get_self, bind at 1 2.
  unfold target_of, full_submodule_name.
  destruct (bool_decide (String.length n = 0%nat)); simpl;
    unfold get_world, lift, bind at 1 2 3;
    (destruct (getattr_module (heap w) wrapper "layer"); [|reflexivity]);
    unfold set_layer, bind at 1;
    (destruct (set_layer_heap _ _ _ (heap w)); [|reflexivity]);
    unfold bind; rewrite synchronize_devices_run; unfold emit; simpl;
    now rewrite <- app_assoc.
Qed.

(** A successful [set_layer] writes one slot of an existing object. *)
Lemma set_layer_heap_inv target new_layer owner h h' :
  set_layer_heap target new_layer owner h = Ok h' ->
  exists p m a,
    h !! p = Some m /\
    h' = <[p := set_modules (dict_set a new_layer (m_modules m)) m]> h.
Proof.
  unfold set_layer_heap. destruct (split_last _) as [ppath attr].
  destruct (get_layer h ppath owner) as [p|]; [|discriminate].
  destruct (getattr_module h p attr); [|discriminate].
  unfold setattr_module. destruct (h !! p) as [m|] eqn:Hm; [|discriminate].
  intros [= <-]. eauto.
Qed.

Lemma set_layer_heap_hooks target new_layer owner h h' :
  set_layer_heap target new_layer owner h = Ok h' ->
  map m_forward_hooks h' = map m_forward_hooks h.
Proof.
  intros (p & m & a & Hm & ->)%set_layer_heap_inv.
  change (m_forward_hooks <$> <[p:=set_modules (dict_set a new_layer (m_modules m)) m]> h
          = m_forward_hooks <$> h).
  rewrite list_fmap_insert. simpl. apply list_insert_id.
  now rewrite list_lookup_fmap, Hm.
Qed.

End Steps.

(** ** The life of the statistic hooks *)

Section DictOrder.
Context {K V : Type} `{EqDecision K}.
Implicit Types (k : K) (v : V) (d : list (K * V)).

Lemma dict_set_absent k v d : k ∉ map fst d -> dict_set k v d = d ++ [(k, v)].
Proof.
  induction d as [|[k0 v0] d IH]; simpl; [reflexivity|].
  intros Hnin. destruct (decide (k = k0)) as [->|Hne].
  - exfalso. apply Hnin, list_elem_of_here.
  - f_equal. apply IH. intros Hin. apply Hnin. now apply list_elem_of_further.
Qed.

Lemma dict_del_first k v d d' :
  k ∉ map fst d -> dict_del k (d ++ (k, v) :: d') = d ++ d'.
Proof.
  induction d as [|[k0 v0] d IH]; simpl.
  - intros _. now rewrite decide_True.
  - intros Hnin. destruct (decide (k = k0)) as [->|Hne].
    + exfalso. apply Hnin, list_elem_of_here.
    + f_equal. apply IH. intros Hin. apply Hnin. now apply list_elem_of_further.
Qed.

End DictOrder.

(** The hook dicts of all objects, by identity. *)
Definition hooks_view (h : list torch_module) : list (list (nat * forward_hook)) :=
  map m_forward_hooks h.

(** The handles issued for the hook dict of object [o]. *)
Definition handles_at (o : loc) (hs : list handle) : list handle :=
  filter (fun hd => h_module hd = o) hs.

(** Against the hook dicts [base], the hook dicts [hv] hold exactly one
    further entry per outstanding handle of [hs], in the order of [hs]. *)
Definition Pending (base : list (list (nat * forward_hook))) (hs : list handle)
    (hv : list (list (nat * forward_hook))) : Prop :=
  length hv = length base /\
  forall o old, base !! o = Some old ->
    exists extra, hv !! o = Some (old ++ extra) /\
                  map fst extra = map h_id (handles_at o hs).

(** Every id in use is below [n]. *)
Definition ids_below (n : nat) (base : list (list (nat * forward_hook))) : Prop :=
  forall o old e, base !! o = Some old -> e ∈ old -> e.1 < n.

(** Handles of forward hooks with ids from [n0] up to [next]. *)
Definition handles_ok (n0 next : nat) (hs : list handle) : Prop :=
  Forall (fun hd => h_kind hd = ForwardHooks /\ n0 <= h_id hd < next) hs.

Lemma Pending_start base : Pending base [] base.
Proof.
  split; [reflexivity|]. intros o old Ho. exists []. now rewrite app_nil_r.
Qed.

Lemma Pending_done base hv : Pending base [] hv -> hv = base.
Proof.
  intros [Hlen Hp]. apply list_eq. intros o.
  destruct (base !! o) as [old|] eqn:Ho.
  - destruct (Hp o old Ho) as (extra & Hlook & Hextra).
    rewrite Hlook. destruct extra; [now rewrite app_nil_r | discriminate].
  - apply lookup_ge_None in Ho.
    assert (Hnone : hv !! o = None) by (apply lookup_ge_None; lia).
    now rewrite Hnone.
Qed.

Lemma Pending_register base hs hv l id hk n0 cur :
  Pending base hs hv ->
  ids_below n0 base ->
  handles_ok n0 id hs ->
  n0 <= id ->
  hv !! l = Some cur ->
  Pending base (hs ++ [Handle l ForwardHooks id]) (<[l := dict_set id hk cur]> hv).
Proof.
  intros [Hlen Hp] Hbase Hhs Hn0 Hcur. split; [now rewrite length_insert|].
  intros o old Ho. destruct (Hp o old Ho) as (extra & Hextra & Hids).
  unfold handles_at in *. rewrite filter_app, filter_cons, filter_nil. simpl.
  destruct (decide (o = l)) as [->|Hne].
  - rewrite decide_True by reflexivity.
    assert (cur = old ++ extra) by congruence. subst cur.
    exists (extra ++ [(id, hk)]). split.
    + rewrite list_lookup_insert_eq by (eapply lookup_lt_Some; eauto).
      rewrite dict_set_absent; [now rewrite <- app_assoc|].
      rewrite map_app, elem_of_app. intros [Hin|Hin].
      * apply list_elem_of_fmap in Hin as (e & -> & He).
        specialize (Hbase l old e Ho He). lia.
      * rewrite Hids in Hin. apply list_elem_of_fmap in Hin as (hd & Hid & Hd).
        apply list_elem_of_filter in Hd as [_ Hd].
        unfold handles_ok in Hhs. rewrite Forall_forall in Hhs.
        specialize (Hhs hd Hd). lia.
    + rewrite !map_app, Hids. reflexivity.
  - rewrite decide_False by congruence. rewrite app_nil_r.
    exists extra. split; [|assumption].
    now rewrite list_lookup_insert_ne by congruence.
Qed.

Lemma Pending_remove base hd hs hv n0 :
  Pending base (hd :: hs) hv ->
  ids_below n0 base ->
  h_kind hd = ForwardHooks ->
  n0 <= h_id hd ->
  Pending base hs
    (match hv !! h_module hd with
     | Some cur => <[h_module hd := dict_del (h_id hd) cur]> hv
     | None => hv
     end).
Proof.
  intros [Hlen Hp] Hbase Hkind Hn0.
  assert (Hgoal : forall hv',
    length hv' = length hv ->
    (forall o, o <> h_module hd -> hv' !! o = hv !! o) ->
    (forall cur, hv !! h_module hd = Some cur ->
                 hv' !! h_module hd = Some (dict_del (h_id hd) cur)) ->
    Pending base hs hv').
  { intros hv' Hl Hother Hsame. split; [congruence|].
    intros o old Ho. destruct (Hp o old Ho) as (extra & Hextra & Hids).
    unfold handles_at in *. rewrite filter_cons in Hids.
    destruct (decide (h_module hd = o)) as [<-|Hne].
    - simpl in Hids. destruct extra as [|[id hk] extra]; [discriminate|].
      simpl in Hids. injection Hids as -> Hids.
      exists extra. split; [|assumption].
      rewrite (Hsame _ Hextra). f_equal. apply dict_del_first.
      intros Hin. apply list_elem_of_fmap in Hin as (e & He1 & He).
      specialize (Hbase _ old e Ho He). lia.
    - exists extra. split; [|assumption]. rewrite Hother by congruence. assumption. }
  destruct (hv !! h_module hd) as [cur|] eqn:Hcur.
  - apply Hgoal.
    + now rewrite length_insert.
    + intros o Ho. now rewrite list_lookup_insert_ne by congruence.
    + intros cur' [= <-].
      apply list_lookup_insert_eq. eapply lookup_lt_Some; eauto.
  - apply Hgoal; auto. intros cur' Hc. congruence.
Qed.

Section HookLifecycle.
Context `{Externals}.

Lemma hooks_view_insert_modules h p m ms :
  h !! p = Some m ->
  hooks_view (<[p := set_modules ms m]> h) = hooks_view h.
Proof.
  intros Hm. unfold hooks_view.
  change (m_forward_hooks <$> <[p:=set_modules ms m]> h = m_forward_hooks <$> h).
  rewrite list_fmap_insert. simpl. apply list_insert_id.
  now rewrite list_lookup_fmap, Hm.
Qed.

Lemma hooks_view_lookup h l :
  hooks_view h !! l = m_forward_hooks <$> (h !! l).
Proof. unfold hooks_view. apply list_lookup_fmap. Qed.

(** What the first loop of [pre_compress] does to the hooks, to the
    handles and to the registry. *)
Lemma wrap_loop_inv subset : forall ns w w' d,
  for_each ns (wrap_module subset) w = (w', Ok tt) ->
  modules (self w) = Some d ->
  hooks_view (heap w') = hooks_view (heap w) ++ replicate (length ns) [] /\
  next_hook_id w' = next_hook_id w /\
  handles (self w') = handles (self w) /\
  exists d', modules (self w') = Some d' /\
    (NoDup ns -> (forall k, k ∈ ns -> k ∉ map fst d) ->
     map fst d' = map fst d ++ ns).
Proof.
  induction ns as [|n ns IH]; intros w w' d; simpl.
  - intros [= <-] Hd. rewrite app_nil_r. repeat split; auto.
    exists d. split; [assumption|]. intros _ _. now rewrite app_nil_r.
  - intros (w1 & [] & Hstep & Hrest)%bind_inv_ok Hd.
    rewrite wrap_module_eq in Hstep.
    destruct (dict_get n subset) as [l|]; [|discriminate].
    cbv zeta in Hstep.
    destruct (set_layer_heap _ _ _ _) as [h2|] eqn:Hset; [|discriminate].
    rewrite Hd in Hstep. injection Hstep as <-.
    destruct (IH _ _ _ Hrest eq_refl) as (Hhv & Hnext & Hhandles & d' & Hd' & Hkeys).
    simpl in *. apply set_layer_heap_hooks in Hset.
    fold (hooks_view h2) in Hset.
    rewrite Hhv. unfold hooks_view in *. rewrite Hset, map_app. simpl.
    rewrite <- app_assoc. repeat split; auto.
    exists d'. split; [assumption|]. intros Hnd Hfresh.
    apply NoDup_cons in Hnd as [Hn Hnd].
    rewrite Hkeys; auto.
    + rewrite dict_set_keys_absent by (apply Hfresh, list_elem_of_here).
      now rewrite <- app_assoc.
    + intros k Hk Hin. apply dict_set_keys_elem in Hin as [->|Hin]; [contradiction|].
      eapply Hfresh; [apply list_elem_of_further|]; eauto.
Qed.

(** The second loop of [pre_compress] issues one handle per name. *)
Lemma hook_loop_inv subset base n0 : forall ns w w',
  for_each ns (hook_module subset) w = (w', Ok tt) ->
  Pending base (handles (self w)) (hooks_view (heap w)) ->
  ids_below n0 base ->
  handles_ok n0 (next_hook_id w) (handles (self w)) ->
  n0 <= next_hook_id w ->
  Pending base (handles (self w')) (hooks_view (heap w')) /\
  handles_ok n0 (next_hook_id w') (handles (self w')) /\
  length (handles (self w')) = length (handles (self w)) + length ns.
Proof.
  induction ns as [|n ns IH]; intros w w'; simpl.
  - intros [= <-]. intros. split; [assumption|]. split; [assumption|lia].
  - intros (w1 & [] & Hstep & Hrest)%bind_inv_ok Hp Hbase Hok Hn0.
    rewrite hook_module_eq in Hstep.
    destruct (dict_get n subset) as [l|]; [|discriminate].
    destruct (heap w !! l) as [m|] eqn:Hm; [|discriminate].
    cbv zeta in Hstep. injection Hstep as <-.
    destruct (IH _ _ Hrest) as (Hp' & Hok' & Hlen'); simpl.
    + unfold hooks_view.
      change (Pending base (handles (self w) ++ [Handle l ForwardHooks (next_hook_id w)])
                (m_forward_hooks <$>
                   <[l:=set_forward_hooks
                          (dict_set (next_hook_id w) (AddBatchHook n) (m_forward_hooks m)) m]>
                     (heap w))).
      rewrite list_fmap_insert. simpl.
      eapply Pending_register; eauto.
      now rewrite list_lookup_fmap, Hm.
    + assumption.
    + unfold handles_ok in *. apply Forall_app. split.
      * eapply Forall_impl; [exact Hok|]. simpl. intros hd [? ?]. split; [assumption|lia].
      * constructor; [|constructor]. simpl. split; [reflexivity|lia].
    + lia.
    + simpl in Hlen'. rewrite length_app in Hlen'. simpl in Hlen'.
      split; [assumption|]. split; [assumption|lia].
Qed.

(** Removing all outstanding handles always succeeds and leaves the
    base hook dicts. *)
Lemma remove_loop base n0 next : forall hs w,
  Pending base hs (hooks_view (heap w)) ->
  ids_below n0 base ->
  handles_ok n0 next hs ->
  exists w', for_each hs handle_remove w = (w', Ok tt) /\
             Pending base [] (hooks_view (heap w')) /\
             self w' = self w.
Proof.
  induction hs as [|hd hs IH]; intros w Hp Hbase Hok; simpl.
  - exists w. auto.
  - inversion Hok as [|? ? [Hkind Hid] Hok']; subst.
    pose proof (Pending_remove _ _ _ _ _ Hp Hbase Hkind (proj1 Hid)) as Hp'.
    rewrite hooks_view_lookup in Hp'.
    unfold bind, handle_remove at 1.
    destruct (heap w !! h_module hd) as [m|] eqn:Hm; simpl in Hp'.
    + assert (Hnext : Pending base hs
                (hooks_view (<[h_module hd := remove_hook hd m]> (heap w)))).
      { unfold hooks_view.
        change (Pending base hs
                  (m_forward_hooks <$> <[h_module hd:=remove_hook hd m]> (heap w))).
        rewrite list_fmap_insert. unfold remove_hook. rewrite Hkind. exact Hp'. }
      destruct (IH (set_heap (<[h_module hd := remove_hook hd m]> (heap w)) w)
                  Hnext Hbase Hok') as (w' & Hrun & Hdone & Hself).
      exists w'. auto.
    + destruct (IH w Hp' Hbase Hok') as (w' & Hrun & Hdone & Hself).
      exists w'. auto.
Qed.

Lemma post_compress_no_handles w :
  handles (self w) = [] -> post_compress w = (w, Ok tt).
Proof.
  intros Hh. unfold post_compress, get_self, put_self, bind. rewrite Hh. simpl.
  destruct w as [h n g t lc]. destruct lc. simpl in *. now subst.
Qed.

(** The parts of a successful [pre_compress]. *)
Lemma pre_compress_inv w0 w1 :
  pre_compress w0 = (w1, Ok tt) ->
  exists wa l d,
    for_each (map fst (get_prunable_layers (heap w0) (layer (self w0))))
      (wrap_module (get_prunable_layers (heap w0) (layer (self w0)))) w0
    = (wa, Ok tt) /\
    get_layer (heap wa) (split_dots (name (self wa))) (model (self wa)) = Ok l /\
    modules (self wa) = Some d /\
    for_each (map fst d)
      (hook_module (get_prunable_layers (heap w0) (layer (self w0))))
      (set_self (set_layer_field l (self wa)) wa)
    = (w1, Ok tt).
Proof.
  unfold pre_compress, compressible_modules, bind at 1.
  intros (wa & [] & Hwrap & Hrest)%bind_inv_ok.
  unfold get_self, attrgetter, put_self, modules_keys, bind in Hrest.
  destruct (get_layer (heap wa) _ _) as [l|] eqn:Hl; [|discriminate].
  simpl in Hrest.
  destruct (modules (self wa)) as [d|] eqn:Hd; [|discriminate].
  exists wa, l, d. auto.
Qed.

(** C3. Start from an instance with no handles and an empty registry,
    in a world whose hook ids are all below the next id to be issued,
    and let [pre_compress] return. Then the handle list is as long as
    the list of compressible modules. [post_compress] then returns,
    empties the handle list and leaves every module with the hooks it
    had before [pre_compress] (the new wrappers with none), so that
    running the forward hooks of a module that had none is a no-op: no
    statistic is accumulated any more. And on an empty handle list
    [post_compress] returns and changes nothing. *)
Theorem hook_lifecycle_balance (w0 w1 : world) :
  handles (self w0) = [] ->
  modules (self w0) = Some [] ->
  NoDup (map fst (get_prunable_layers (heap w0) (layer (self w0)))) ->
  ids_below (next_hook_id w0) (hooks_view (heap w0)) ->
  pre_compress w0 = (w1, Ok tt) ->
  length (handles (self w1))
    = length (get_prunable_layers (heap w0) (layer (self w0))) /\
  (exists w2,
     post_compress w1 = (w2, Ok tt) /\
     handles (self w2) = [] /\
     hooks_view (heap w2)
       = hooks_view (heap w0) ++
         replicate (length (get_prunable_layers (heap w0) (layer (self w0)))) [] /\
     (forall l m0 a out,
        heap w0 !! l = Some m0 -> m_forward_hooks m0 = [] ->
        run_forward_hooks l a out w2 = (w2, Ok tt))) /\
  (forall w, handles (self w) = [] -> post_compress w = (w, Ok tt)).
Proof.
  intros Hh0 Hm0 Hnd Hids Hrun.
  apply pre_compress_inv in Hrun as (wa & l & d & Hwrap & _ & Hd & Hhook).
  set (subset := get_prunable_layers (heap w0) (layer (self w0))) in *.
  destruct (wrap_loop_inv _ _ _ _ _ Hwrap Hm0)
    as (Hhv & Hnext & Hhandles & d' & Hd' & Hkeys).
  assert (d' = d) by congruence. subst d'.
  specialize (Hkeys Hnd). simpl in Hkeys.
  rewrite Hkeys in Hhook by (intros k _ Hin; now apply elem_of_nil in Hin).
  set (base := hooks_view (heap w0) ++ replicate (length (map fst subset)) []) in *.
  assert (Hbase : ids_below (next_hook_id w0) base).
  { intros o old e Ho He. unfold base in Ho.
    apply lookup_app_Some in Ho as [Ho|[_ Ho]]; [eauto|].
    apply lookup_replicate in Ho as [-> _]. now apply elem_of_nil in He. }
  destruct (hook_loop_inv subset base (next_hook_id w0) _ _ _ Hhook)
    as (Hp & Hok & Hlen); simpl.
  { rewrite Hhandles, Hh0, Hhv. apply Pending_start. }
  { assumption. }
  { rewrite Hhandles, Hh0. constructor. }
  { lia. }
  simpl in Hlen. rewrite Hhandles, Hh0, length_map in Hlen. simpl in Hlen.
  split; [assumption|]. split; [|apply post_compress_no_handles].
  destruct (remove_loop base _ _ _ w1 Hp Hbase Hok) as (w2 & Hrem & Hdone & Hself).
  apply Pending_done in Hdone.
  exists (set_self (set_handles [] (self w2)) w2).
  assert (Hview : hooks_view (heap w2) = hooks_view (heap w0) ++ replicate (length subset) []).
  { rewrite Hdone. unfold base. now rewrite length_map. }
  split; [|split; [reflexivity|split; [exact Hview|]]].
  - unfold post_compress, get_self, put_self, bind. now rewrite Hrem.
  - intros o m0 a out Ho Hnone.
    unfold run_forward_hooks, get_module, bind. simpl.
    assert (Hlook : hooks_view (heap w2) !! o = Some []).
    { rewrite Hview. apply lookup_app_l_Some.
      rewrite hooks_view_lookup, Ho. simpl. now rewrite Hnone. }
    rewrite hooks_view_lookup in Hlook.
    destruct (heap w2 !! o) as [m2|]; [|discriminate].
    injection Hlook as ->. reflexivity.
Qed.

End HookLifecycle.

(** ** The substitution round trip *)

Section RoundTrip.
Context `{Externals}.
Variable h0 : list torch_module.
Variable lc0 : LayerCompressor.
Variable subset : list (string * nat).

(** Every name of the compressible modules is well addressed in the
    original arena. *)
Hypothesis Haddressed : well_addressed h0 lc0 subset = true.

Lemma subset_addressed n l :
  dict_get n subset = Some l -> addressed h0 lc0 (n, l) = true.
Proof.
  intros Hg. apply dict_get_Some_elem in Hg.
  unfold well_addressed in Haddressed. rewrite forallb_forall in Haddressed.
  apply Haddressed. now apply list_elem_of_In.
Qed.

(** The instance still hands the same owners and paths to [set_layer]:
    its layer may have been fetched again only if the original layer is
    a leaf. *)
Definition target_ok (lc : LayerCompressor) : Prop :=
  model lc = model lc0 /\ name lc = name lc0 /\
  (layer lc = layer lc0 \/ is_leaf h0 (layer lc0) = true).

Lemma target_ok_same lc n l :
  target_ok lc -> addressed h0 lc0 (n, l) = true ->
  target_of lc n = target_of lc0 n /\
  full_submodule_name lc n = full_submodule_name lc0 n.
Proof.
  intros (Hmodel & Hname & Hlayer) Ha.
  assert (Hfull : full_submodule_name lc n = full_submodule_name lc0 n)
    by (unfold full_submodule_name; now rewrite Hname).
  split; [|assumption].
  unfold target_of. rewrite Hfull, Hmodel.
  destruct (bool_decide (String.length n = 0%nat)) eqn:Hn; [reflexivity|].
  destruct Hlayer as [->|Hleaf]; [reflexivity|].
  exfalso.
  apply addressed_spec in Ha
    as (ppath & attr & p & m0 & _ & Hp & _ & Hm0 & Hattr & _).
  unfold target_of in Hp. rewrite Hn in Hp. simpl in Hp.
  destruct (is_leaf_get_layer _ _ _ _ Hleaf Hp) as [_ ->].
  unfold is_leaf in Hleaf. rewrite Hm0 in Hleaf.
  apply bool_decide_eq_true in Hleaf. rewrite Hleaf in Hattr. discriminate.
Qed.

(** The registry maps names to new objects, each holding the module of
    its name as its child [layer]. *)
Definition Registry (h : list torch_module) (d : list (string * nat)) : Prop :=
  Forall (fun item =>
            length h0 <= item.2 /\
            exists l mW, dict_get item.1 subset = Some l /\
                         h !! item.2 = Some mW /\
                         (exists nm, m_class mW = CompressionWrapper nm) /\
                         dict_get "layer" (m_modules mW) = Some l) d.

Lemma Registry_frame h h' d :
  (forall o m, length h0 <= o -> h !! o = Some m -> h' !! o = Some m) ->
  Registry h d -> Registry h' d.
Proof.
  intros Hframe Hreg. eapply Forall_impl; [exact Hreg|].
  intros [n W]. simpl. intros (Hfresh & l & mW & Hl & HW & Hcls & Hlayer).
  split; [assumption|]. exists l, mW. auto.
Qed.

Lemma Forall_dict_set {K V : Type} `{EqDecision K} (P : K * V -> Prop) k v d :
  Forall P d -> P (k, v) -> Forall P (dict_set k v d).
Proof.
  intros Hd Hkv. induction Hd as [|[k0 v0] d Hx Hd IH]; simpl.
  - constructor; [assumption|constructor].
  - destruct (decide (k = k0)); constructor; auto.
Qed.

(** A name that has been processed finds a new object in its slot. *)
Definition Swapped (P : list string) (h : list torch_module) : Prop :=
  forall n p a, n ∈ P -> slot_of h0 lc0 n = Ok (p, a) ->
    exists v, getattr_module h p a = Ok v /\ length h0 <= v.

Lemma Swapped_same_tree P h h' :
  map m_modules h' = map m_modules h -> Swapped P h -> Swapped P h'.
Proof.
  intros Hmap Hsw n p a Hn Hslot.
  destruct (Hsw n p a Hn Hslot) as (v & Hv & Hfresh).
  exists v. split; [|assumption].
  apply getattr_module_Ok in Hv as (m & Hm & Hd).
  assert (Hlook : m_modules <$> (h' !! p) = m_modules <$> (h !! p)).
  { rewrite <- !list_lookup_fmap.
    change (map m_modules h' !! p = map m_modules h !! p). now rewrite Hmap. }
  rewrite Hm in Hlook. simpl in Hlook.
  destruct (h' !! p) as [m'|] eqn:Hm'; [|discriminate].
  injection Hlook as Hlook. apply getattr_module_Ok. exists m'.
  now rewrite Hlook.
Qed.

(** One round of the first loop of [pre_compress]. *)
Lemma wrap_module_run D P n l w d :
  dict_get n subset = Some l ->
  n ∈ D ->
  Inv h0 lc0 D (heap w) ->
  Swapped P (heap w) ->
  target_ok (self w) ->
  modules (self w) = Some d ->
  Registry (heap w) d ->
  exists w',
    wrap_module subset n w = (w', Ok tt) /\
    Inv h0 lc0 D (heap w') /\
    Swapped (n :: P) (heap w') /\
    self w' = set_modules_field (Some (dict_set n (length (heap w)) d)) (self w) /\
    Registry (heap w') (dict_set n (length (heap w)) d).
Proof.
  intros Hl HnD HI Hsw Htarget Hd Hreg.
  pose proof (subset_addressed _ _ Hl) as Ha.
  destruct (target_ok_same _ _ _ Htarget Ha) as [Htgt Hfull].
  apply addressed_spec in Ha
    as (ppath & attr & p & m0 & Hsplit & Hp & Hslot & Hm0 & Hattr & Hleaf).
  set (W := length (heap w)).
  set (h1 := heap w ++ [wrapper_module (self w) n l]).
  assert (HI1 : Inv h0 lc0 D h1) by now apply Inv_alloc.
  assert (Hpnl : is_leaf h0 p = false).
  { unfold is_leaf. rewrite Hm0. apply bool_decide_eq_false.
    intros Hnil. rewrite Hnil in Hattr. discriminate. }
  pose proof (get_layer_stable _ _ _ _ _ _ _ HI1 Hp Hpnl) as Hp1.
  pose proof HI1 as [Hlen1 Hinv1].
  destruct (Hinv1 p m0 Hm0) as (m & Hm & Hkeys & Hslots).
  destruct (Hslots attr l Hattr) as (old & Hold & _).
  assert (Hlen0 : length h0 <= W) by (destruct HI; assumption).
  assert (Hp_lt : p < length h0) by (eapply lookup_lt_Some; eauto).
  rewrite wrap_module_eq, Hl. cbv zeta. fold h1 W. rewrite Htgt.
  rewrite (set_layer_heap_at _ _ _ _ _ _ _ _ _ Hsplit Hp1 Hm Hold), Hd.
  set (h2 := <[p := set_modules (dict_set attr W (m_modules m)) m]> h1).
  assert (HW : h2 !! W = Some (wrapper_module (self w) n l)).
  { unfold h2. rewrite list_lookup_insert_ne by lia.
    unfold h1, W. now rewrite list_lookup_middle. }
  assert (Hframe : forall o mo, length h0 <= o -> heap w !! o = Some mo ->
                                h2 !! o = Some mo).
  { intros o mo Ho Hmo. unfold h2. rewrite list_lookup_insert_ne by lia.
    unfold h1. now apply lookup_app_l_Some. }
  eexists. split; [reflexivity|]. simpl. fold h2.
  split; [|split; [|split; [reflexivity|]]].
  - eapply Inv_write; eauto.
    right. split; [assumption|]. split; [assumption|]. eauto.
  - intros n' p' a' Hn' Hslot'.
    destruct (decide ((p', a') = (p, attr))) as [[= -> ->]|Hne].
    + exists W. split; [|assumption]. apply getattr_module_Ok.
      eexists. split.
      * unfold h2. apply list_lookup_insert_eq. eapply lookup_lt_Some; eauto.
      * simpl. rewrite dict_get_set. now rewrite decide_True.
    + apply elem_of_cons in Hn' as [->|Hn'].
      { rewrite Hslot in Hslot'. congruence. }
      destruct (Hsw n' p' a' Hn' Hslot') as (v & Hv & Hfresh).
      exists v. split; [|assumption].
      apply getattr_module_Ok in Hv as (mo & Hmo & Hdo).
      apply getattr_module_Ok. unfold h2.
      destruct (decide (p' = p)) as [->|Hpne].
      * assert (Hmo1 : h1 !! p = Some mo) by (unfold h1; now apply lookup_app_l_Some).
        assert (mo = m) by congruence. subst mo.
        eexists. split.
        { apply list_lookup_insert_eq. eapply lookup_lt_Some; eauto. }
        simpl. rewrite dict_get_set. rewrite decide_False by congruence. assumption.
      * exists mo. split; [|assumption].
        rewrite list_lookup_insert_ne by congruence.
        unfold h1. now apply lookup_app_l_Some.
  - apply Forall_dict_set.
    + eapply Registry_frame; eauto.
    + simpl. split; [assumption|]. exists l, (wrapper_module (self w) n l).
      repeat split; auto. simpl. eauto.
Qed.

(** The first loop of [pre_compress] runs to its end. *)
Lemma wrap_loop_run D : forall ns P w d,
  (forall n, n ∈ ns -> n ∈ D /\ exists l, dict_get n subset = Some l) ->
  Inv h0 lc0 D (heap w) ->
  Swapped P (heap w) ->
  target_ok (self w) ->
  modules (self w) = Some d ->
  Registry (heap w) d ->
  exists w' d',
    for_each ns (wrap_module subset) w = (w', Ok tt) /\
    Inv h0 lc0 D (heap w') /\
    Swapped (rev ns ++ P) (heap w') /\
    target_ok (self w') /\
    layer (self w') = layer (self w) /\
    modules (self w') = Some d' /\
    Registry (heap w') d' /\
    (forall k, k ∈ map fst d' <-> k ∈ map fst d \/ k ∈ ns).
Proof.
  induction ns as [|n ns IH]; intros P w d Hns HI Hsw Htarget Hd Hreg; simpl.
  - exists w, d. do 7 (split; [auto; fail|]).
    intros k. split; [auto|].
    intros [?|Hin]; [assumption|]. now apply elem_of_nil in Hin.
  - destruct (Hns n) as (HnD & l & Hl); [apply list_elem_of_here|].
    destruct (wrap_module_run D P n l w d Hl HnD HI Hsw Htarget Hd Hreg)
      as (w1 & Hrun & HI1 & Hsw1 & Hself1 & Hreg1).
    destruct (IH (n :: P) w1 (dict_set n (length (heap w)) d))
      as (w' & d' & Hrun' & HI' & Hsw' & Htarget' & Hlayer' & Hd' & Hreg' & Hkeys').
    + intros k Hk. apply Hns. now apply list_elem_of_further.
    + assumption.
    + assumption.
    + rewrite Hself1. exact Htarget.
    + now rewrite Hself1.
    + assumption.
    + exists w', d'. rewrite (bind_ok _ _ _ _ _ Hrun).
      split; [assumption|]. split; [assumption|].
      split; [now rewrite <- app_assoc|].
      split; [assumption|]. split; [now rewrite Hlayer', Hself1|].
      split; [assumption|]. split; [assumption|].
      intros k. rewrite Hkeys', dict_set_keys_elem, elem_of_cons. tauto.
Qed.

(** The second loop of [pre_compress] touches hooks and handles only.
    It is given names whose modules are original objects. *)
Lemma hook_loop_run : forall ns w,
  length h0 <= length (heap w) ->
  (forall n, n ∈ ns -> exists l, dict_get n subset = Some l /\ l < length h0) ->
  exists w',
    for_each ns (hook_module subset) w = (w', Ok tt) /\
    map m_modules (heap w') = map m_modules (heap w) /\
    (forall o m, length h0 <= o -> heap w !! o = Some m -> heap w' !! o = Some m) /\
    model (self w') = model (self w) /\
    layer (self w') = layer (self w) /\
    name (self w') = name (self w) /\
    modules (self w') = modules (self w).
Proof.
  induction ns as [|n ns IH]; intros w Hlen Hns; simpl.
  - exists w. repeat split; auto.
  - destruct (Hns n) as (l & Hl & Hlt); [apply list_elem_of_here|].
    destruct (heap w !! l) as [m|] eqn:Hm.
    2:{ apply lookup_ge_None in Hm. lia. }
    set (w1 := set_self
                 (set_handles (handles (self w) ++
                                 [Handle l ForwardHooks (next_hook_id w)]) (self w))
                 (set_next_hook_id (S (next_hook_id w))
                    (set_heap
                       (<[l := set_forward_hooks
                                 (dict_set (next_hook_id w) (AddBatchHook n)
                                    (m_forward_hooks m)) m]> (heap w)) w))).
    assert (Hstep : hook_module subset n w = (w1, Ok tt)).
    { rewrite hook_module_eq, Hl, Hm. reflexivity. }
    assert (Htree : map m_modules (heap w1) = map m_modules (heap w)).
    { simpl.
      change (m_modules <$> <[l:=set_forward_hooks
                (dict_set (next_hook_id w) (AddBatchHook n) (m_forward_hooks m)) m]>
                (heap w) = m_modules <$> heap w).
      rewrite list_fmap_insert. simpl. apply list_insert_id.
      now rewrite list_lookup_fmap, Hm. }
    destruct (IH w1) as (w' & Hrun & Htree' & Hframe' & Hmodel & Hlayer & Hname & Hmods).
    + simpl. now rewrite length_insert.
    + intros k Hk. apply Hns. now apply list_elem_of_further.
    + exists w'. rewrite (bind_ok _ _ _ _ _ Hstep).
      split; [assumption|]. split; [congruence|].
      split; [|auto].
      intros o mo Ho Hmo. apply Hframe'; [assumption|]. simpl.
      rewrite list_lookup_insert_ne by lia. assumption.
Qed.

(** The loop of [revert_layer_wrappers] runs to its end and leaves no
    slot of an original object changed. *)
Lemma revert_loop_run : forall items w,
  Inv h0 lc0 (map fst items) (heap w) ->
  Registry (heap w) items ->
  target_ok (self w) ->
  exists w',
    for_each items revert_module w = (w', Ok tt) /\
    Inv h0 lc0 [] (heap w') /\
    self w' = self w.
Proof.
  induction items as [|[n W] items IH]; intros w HI Hreg Htarget; simpl.
  - exists w. auto.
  - inversion Hreg as [|? ? (Hfresh & l & mW & Hl & HW & _ & Hlayer) Hreg']; subst.
    simpl in *.
    pose proof (subset_addressed _ _ Hl) as Ha.
    destruct (target_ok_same _ _ _ Htarget Ha) as [Htgt _].
    apply addressed_spec in Ha
      as (ppath & attr & p & m0 & Hsplit & Hp & Hslot & Hm0 & Hattr & Hleaf).
    assert (Hpnl : is_leaf h0 p = false).
    { unfold is_leaf. rewrite Hm0. apply bool_decide_eq_false.
      intros Hnil. rewrite Hnil in Hattr. discriminate. }
    pose proof (get_layer_stable _ _ _ _ _ _ _ HI Hp Hpnl) as Hp1.
    pose proof HI as [Hlen Hinv].
    destruct (Hinv p m0 Hm0) as (m & Hm & Hkeys & Hslots).
    destruct (Hslots attr l Hattr) as (old & Hold & _).
    assert (Hp_lt : p < length h0) by (eapply lookup_lt_Some; eauto).
    assert (Hget : getattr_module (heap w) W "layer" = Ok l)
      by (apply getattr_module_Ok; eauto).
    set (h2 := <[p := set_modules (dict_set attr l (m_modules m)) m]> (heap w)).
    set (w1 := set_trace
                 (trace w ++ map EvSynchronize (seq 0 cuda_device_count) ++
                  [EvEmptyCache]) (set_heap h2 w)).
    assert (Hstep : revert_module (n, W) w = (w1, Ok tt)).
    { rewrite revert_module_eq, Hget, Htgt.
      now rewrite (set_layer_heap_at _ _ _ _ _ _ _ _ _ Hsplit Hp1 Hm Hold). }
    destruct (IH w1) as (w' & Hrun & HI' & Hself').
    + simpl. fold h2. unfold h2. eapply Inv_write; eauto.
      * now left.
      * intros o b v0 v Hne [->|(Hl0 & Hf0 & n' & Hn' & Hslot')]; [now left|].
        right. split; [assumption|]. split; [assumption|].
        exists n'. split; [|assumption].
        apply elem_of_cons in Hn' as [->|Hn']; [|assumption].
        rewrite Hslot in Hslot'. congruence.
    + simpl. fold h2. eapply Registry_frame; [|exact Hreg'].
      intros o mo Ho Hmo. unfold h2. now rewrite list_lookup_insert_ne by lia.
    + exact Htarget.
    + exists w'. rewrite (bind_ok _ _ _ _ _ Hstep). auto.
Qed.

End RoundTrip.

Section RoundTripClaim.
Context `{Externals}.

Lemma pre_compress_run w0 wa l d w1 :
  for_each (map fst (get_prunable_layers (heap w0) (layer (self w0))))
    (wrap_module (get_prunable_layers (heap w0) (layer (self w0)))) w0
  = (wa, Ok tt) ->
  get_layer (heap wa) (split_dots (name (self wa))) (model (self wa)) = Ok l ->
  modules (self wa) = Some d ->
  for_each (map fst d)
    (hook_module (get_prunable_layers (heap w0) (layer (self w0))))
    (set_self (set_layer_field l (self wa)) wa)
  = (w1, Ok tt) ->
  pre_compress w0 = (w1, Ok tt).
Proof.
  intros Hwrap Hl Hd Hhook.
  unfold pre_compress, compressible_modules, bind at 1.
  unfold bind at 1. rewrite Hwrap.
  unfold get_self, attrgetter, put_self, modules_keys, bind.
  rewrite Hl. simpl. rewrite Hd. exact Hhook.
Qed.

Lemma dict_get_None_keys {K V : Type} `{EqDecision K} (k : K) (d : list (K * V)) :
  k ∉ map fst d -> dict_get k d = None.
Proof.
  intros Hnin. destruct (dict_get k d) eqn:Hg; [|reflexivity].
  apply dict_get_Some_keys in Hg. contradiction.
Qed.

(** C1. Take an instance with an empty registry whose layer sits at its
    name in the model, and let every compressible module be a leaf that
    its name addresses. Then [pre_compress] returns and puts a new
    object into the slot of every compressible module, registering for
    each name a wrapper whose child [layer] is the module itself; and
    [revert_layer_wrappers] then returns and leaves every original
    object with the same child names, each naming the very object it
    named before. The empty name is included: its slot is reached from
    the root model by the full name. *)
Theorem substitution_round_trip (w0 : world) :
  modules (self w0) = Some [] ->
  well_addressed (heap w0) (self w0)
    (get_prunable_layers (heap w0) (layer (self w0))) = true ->
  get_layer (heap w0) (split_dots (name (self w0))) (model (self w0))
    = Ok (layer (self w0)) ->
  exists w1 w2 d,
    pre_compress w0 = (w1, Ok tt) /\
    modules (self w1) = Some d /\
    Registry (heap w0) (get_prunable_layers (heap w0) (layer (self w0)))
      (heap w1) d /\
    (forall n l,
       dict_get n (get_prunable_layers (heap w0) (layer (self w0))) = Some l ->
       n ∈ map fst d /\
       exists p a v,
         slot_of (heap w0) (self w0) n = Ok (p, a) /\
         getattr_module (heap w0) p a = Ok l /\
         getattr_module (heap w1) p a = Ok v /\
         length (heap w0) <= v) /\
    revert_layer_wrappers w1 = (w2, Ok tt) /\
    (forall o m0, heap w0 !! o = Some m0 ->
       exists m2, heap w2 !! o = Some m2 /\
                  map fst (m_modules m2) = map fst (m_modules m0) /\
                  forall a, dict_get a (m_modules m2) = dict_get a (m_modules m0)).
Proof.
  intros Hmods Haddr Hlayer.
  set (h0 := heap w0). set (lc0 := self w0).
  set (subset := get_prunable_layers h0 (layer lc0)).
  set (D := map fst subset).
  assert (Htarget0 : target_ok h0 lc0 lc0) by (repeat split; auto).
  destruct (wrap_loop_run h0 lc0 subset Haddr D D [] w0 [])
    as (wa & d & Hwrap & HIa & Hswa & Htargeta & Hlayera & Hda & Hrega & Hkeysa).
  { intros n Hn. split; [assumption|]. now apply dict_get_keys_Some. }
  { apply Inv_init. }
  { intros n p a Hn. now apply elem_of_nil in Hn. }
  { exact Htarget0. }
  { exact Hmods. }
  { constructor. }
  destruct Htargeta as (Hmodela & Hnamea & _).
  destruct (get_layer_total h0 lc0 D (heap wa) _ _ _ HIa Hlayer)
    as (l' & Hl' & Hl'ok).
  set (wb := set_self (set_layer_field l' (self wa)) wa).
  assert (Hkeys_d : forall n, n ∈ map fst d -> exists l,
             dict_get n subset = Some l /\ l < length h0).
  { intros n Hn. apply Hkeysa in Hn as [Hn|Hn]; [now apply elem_of_nil in Hn|].
    apply dict_get_keys_Some in Hn as (l & Hl). exists l. split; [assumption|].
    pose proof (subset_addressed h0 lc0 subset Haddr _ _ Hl) as Ha.
    apply addressed_spec in Ha as (_ & _ & _ & _ & _ & _ & _ & _ & _ & Hleaf).
    unfold is_leaf in Hleaf. destruct (h0 !! l) eqn:Hm; [|discriminate].
    eapply lookup_lt_Some; eauto. }
  destruct (hook_loop_run h0 subset (map fst d) wb)
    as (w1 & Hhook & Htree1 & Hframe1 & Hmodel1 & Hlayer1 & Hname1 & Hmods1).
  { destruct HIa. assumption. }
  { exact Hkeys_d. }
  assert (Hpre : pre_compress w0 = (w1, Ok tt)).
  { eapply pre_compress_run; [exact Hwrap| |exact Hda|exact Hhook].
    rewrite Hnamea, Hmodela. exact Hl'. }
  assert (HI1 : Inv h0 lc0 D (heap w1)) by (eapply Inv_same_tree; eauto).
  assert (Hsw1 : Swapped h0 lc0 (rev D ++ []) (heap w1))
    by (eapply Swapped_same_tree; eauto).
  assert (Hreg1 : Registry h0 subset (heap w1) d)
    by (eapply Registry_frame; eauto).
  assert (Hd1 : modules (self w1) = Some d) by (rewrite Hmods1; exact Hda).
  assert (Htarget1 : target_ok h0 lc0 (self w1)).
  { unfold target_ok. rewrite Hmodel1, Hname1, Hlayer1. simpl.
    repeat split; auto. }
  destruct (revert_loop_run h0 lc0 subset Haddr d w1)
    as (w2 & Hrev & HI2 & Hself2); auto.
  { eapply Inv_mono; [|exact HI1]. intros n Hn. apply Hkeysa. now right. }
  exists w1, (set_self (set_modules_field None (self w2)) w2), d.
  split; [exact Hpre|]. split; [exact Hd1|]. split; [exact Hreg1|].
  split; [|split].
  - intros n l Hl. split.
    { apply Hkeysa. right. eapply dict_get_Some_keys; eauto. }
    pose proof (subset_addressed h0 lc0 subset Haddr _ _ Hl) as Ha.
    apply addressed_spec in Ha
      as (ppath & attr & p & m0 & _ & _ & Hslot & Hm0 & Hattr & _).
    destruct (Hsw1 n p attr) as (v & Hv & Hfresh); [|exact Hslot|].
    { rewrite app_nil_r. apply list_elem_of_In. rewrite <- in_rev.
      apply list_elem_of_In. eapply dict_get_Some_keys; eauto. }
    exists p, attr, v. repeat split; auto.
    apply getattr_module_Ok. eauto.
  - unfold revert_layer_wrappers, modules_items, bind at 1. rewrite Hd1.
    unfold bind at 1. rewrite Hrev. reflexivity.
  - intros o m0 Hm0. simpl. destruct HI2 as [_ Hinv2].
    destruct (Hinv2 o m0 Hm0) as (m2 & Hm2 & Hkeys2 & Hslots2).
    exists m2. split; [assumption|]. split; [assumption|].
    intros a. destruct (dict_get a (m_modules m0)) as [v0|] eqn:Hv0.
    + destruct (Hslots2 a v0 Hv0) as (v & Hv & [->|(_ & _ & n & Hn & _)]);
        [assumption|]. now apply elem_of_nil in Hn.
    + apply dict_get_None_keys. rewrite Hkeys2. intros Hin.
      apply dict_get_keys_Some in Hin as (v & Hv). congruence.
Qed.

End RoundTripClaim.

(** ** A concrete model and its runs *)

Definition plain (ms : list (string * nat)) : torch_module :=
  MkModule Plain ms [] [].

(** A model with one decoder layer at [layers.0], holding two
    projections under [self_attn] and one under [mlp], and an output
    head [lm_head] without children. Objects 4 to 7 are the leaves. *)
Definition sample_heap : list torch_module :=
  [ plain [("layers", 1); ("lm_head", 5)];
    plain [("0", 2)];
    plain [("self_attn", 3); ("mlp", 4)];
    plain [("q_proj", 6); ("k_proj", 7)];
    plain [];
    plain [];
    plain [];
    plain [] ].

(** Collaborators for the sample: names are left as they are, the
    compressible modules of the decoder layer and of the head are
    listed, there are two accelerators, and a module's own computation
    hands back its first argument. *)
Definition sample_externals : Externals := {|
  fix_fsdp_module_name := fun s => s;
  get_prunable_layers := fun _ l =>
    if bool_decide (l = 2) then
      [("self_attn.q_proj", 6); ("self_attn.k_proj", 7); ("mlp", 4)]
    else if bool_decide (l = 5) then [("", 5)]
    else [];
  get_execution_device := fun _ _ => Cuda 0;
  cuda_device_count := 2;
  forward := fun _ a _ =>
    match a with
    | x :: _ => ret x
    | [] => ret PNone
    end
|}.

#[local] Existing Instance sample_externals.

(** A fresh compressor for the decoder layer. *)
Definition sample_world : world :=
  MkWorld sample_heap 0 true [] (init 0 2 0 "layers.0" [("bits", PNone)]).

(** A fresh compressor for the head: its only compressible module has
    the empty name. *)
Definition head_world : world :=
  MkWorld sample_heap 0 true [] (init 0 5 1 "lm_head" []).

Definition sample_prepared : world := Eval vm_compute in (pre_compress sample_world).1.

Definition head_prepared : world := Eval vm_compute in (pre_compress head_world).1.

Definition sample_reverted : world :=
  Eval vm_compute in (revert_layer_wrappers sample_prepared).1.

Definition sample_stopped : world := Eval vm_compute in (set_early_stop sample_world).1.

Example pre_compress_sample : pre_compress sample_world = (sample_prepared, Ok tt).
Proof. reflexivity. Qed.

Example pre_compress_head : pre_compress head_world = (head_prepared, Ok tt).
Proof. reflexivity. Qed.

(** After [pre_compress] the slots hold the wrappers 8, 9 and 10. *)
Example sample_prepared_tree :
  map m_modules (take 4 (heap sample_prepared))
  = [ [("layers", 1); ("lm_head", 5)];
      [("0", 2)];
      [("self_attn", 3); ("mlp", 10)];
      [("q_proj", 8); ("k_proj", 9)] ].
Proof. reflexivity. Qed.

(** With the empty name the swap is made in the root model, and the
    instance's layer is fetched again: it is now the wrapper. *)
Example head_prepared_tree :
  getattr_module (heap head_prepared) 0 "lm_head" = Ok 8 /\
  layer (self head_prepared) = 8 /\
  getattr_module (heap head_prepared) 8 "layer" = Ok 5.
Proof. repeat split; reflexivity. Qed.

(** While the hooks are in place a call of a hooked module feeds the
    wrapper of its name. *)
Example hooked_call_accumulates :
  let t := Tensor Cpu [1] [1%Q] in
  trace (module_call 4 [PTensor t] [] sample_prepared).1 = [EvAddBatch 10 t t].
Proof. reflexivity. Qed.

Lemma substitution_round_trip_witness :
  exists w1 w2 d,
    pre_compress sample_world = (w1, Ok tt) /\
    modules (self w1) = Some d /\
    Registry (heap sample_world)
      (get_prunable_layers (heap sample_world) (layer (self sample_world)))
      (heap w1) d /\
    (forall n l,
       dict_get n (get_prunable_layers (heap sample_world)
                     (layer (self sample_world))) = Some l ->
       n ∈ map fst d /\
       exists p a v,
         slot_of (heap sample_world) (self sample_world) n = Ok (p, a) /\
         getattr_module (heap sample_world) p a = Ok l /\
         getattr_module (heap w1) p a = Ok v /\
         length (heap sample_world) <= v) /\
    revert_layer_wrappers w1 = (w2, Ok tt) /\
    (forall o m0, heap sample_world !! o = Some m0 ->
       exists m2, heap w2 !! o = Some m2 /\
                  map fst (m_modules m2) = map fst (m_modules m0) /\
                  forall a, dict_get a (m_modules m2) = dict_get a (m_modules m0)).
Proof.
  apply (substitution_round_trip sample_world); reflexivity.
Defined.

(** The same round trip for the head, whose name is empty. *)
Example substitution_round_trip_head :
  exists w2, revert_layer_wrappers head_prepared = (w2, Ok tt) /\
             map m_modules (take 8 (heap w2)) = map m_modules sample_heap.
Proof. eexists. split; reflexivity. Qed.

(** C2 as stated fails: on the prepared sample the first call of
    [revert_layer_wrappers] returns and the second one raises. *)
Lemma revert_twice_counterexample :
  revert_layer_wrappers sample_prepared = (sample_reverted, Ok tt) /\
  revert_layer_wrappers sample_reverted = (sample_reverted, Err AttributeError).
Proof. split; reflexivity. Qed.

Lemma revert_twice_raises_witness :
  revert_layer_wrappers sample_prepared = (sample_reverted, Ok tt) /\
  revert_layer_wrappers sample_reverted = (sample_reverted, Err AttributeError).
Proof.
  split; [reflexivity|].
  apply (revert_twice_raises sample_prepared sample_reverted). reflexivity.
Defined.

Lemma ids_below_no_hooks n h :
  Forall (fun m => m_forward_hooks m = []) h -> ids_below n (hooks_view h).
Proof.
  intros Hall o old e Ho He. rewrite hooks_view_lookup in Ho.
  destruct (h !! o) as [m|] eqn:Hm; [|discriminate].
  injection Ho as <-. rewrite Forall_forall in Hall.
  rewrite (Hall m) in He by (eapply list_elem_of_lookup_2; eauto).
  now apply elem_of_nil in He.
Qed.

Lemma hook_lifecycle_balance_witness :
  length (handles (self sample_prepared))
    = length (get_prunable_layers (heap sample_world) (layer (self sample_world))) /\
  (exists w2,
     post_compress sample_prepared = (w2, Ok tt) /\
     handles (self w2) = [] /\
     hooks_view (heap w2)
       = hooks_view (heap sample_world) ++
         replicate (length (get_prunable_layers (heap sample_world)
                              (layer (self sample_world)))) [] /\
     (forall l m0 a out,
        heap sample_world !! l = Some m0 -> m_forward_hooks m0 = [] ->
        run_forward_hooks l a out w2 = (w2, Ok tt))) /\
  (forall w, handles (self w) = [] -> post_compress w = (w, Ok tt)).
Proof.
  apply (hook_lifecycle_balance sample_world sample_prepared).
  - reflexivity.
  - reflexivity.
  - apply (bool_decide_unpack _). vm_compute. exact I.
  - apply ids_below_no_hooks. repeat constructor.
  - reflexivity.
Defined.

Lemma early_stop_raises_with_inputs_witness :
  set_early_stop sample_world = (sample_stopped, Ok tt) /\
  (out <- module_call (layer (self sample_world))
            [PTensor (Tensor Cpu [1] [1%Q])] [("use_cache", PNone)] ;;
   ret out) sample_stopped
  = (sample_stopped,
     Err (EarlyStopException [PTensor (Tensor Cpu [1] [1%Q])] [("use_cache", PNone)])).
Proof.
  split; [reflexivity|].
  apply (early_stop_raises_with_inputs sample_world sample_stopped). reflexivity.
Defined.

(** The module tree of the prepared decoder layer. *)
Definition sample_tree : mtree :=
  MNode 2 [ MNode 3 [MNode 8 [MNode 6 []]; MNode 9 [MNode 7 []]];
            MNode 10 [MNode 4 []] ].

Lemma compress_visits_wrappers_depth_first_witness :
  compress 4 sample_prepared
  = (set_trace
       [EvCompress 8 [("bits", PNone)] false; EvFree 8 false;
        EvCompress 9 [("bits", PNone)] false; EvFree 9 false;
        EvCompress 10 [("bits", PNone)] false; EvFree 10 false;
        EvSynchronize 0; EvSynchronize 1; EvEmptyCache] sample_prepared,
     Ok tt).
Proof.
  assert (Hdepth : depth sample_tree <= 4) by (vm_compute; lia).
  exact (compress_visits_wrappers_depth_first 4 sample_prepared sample_tree
           eq_refl eq_refl Hdepth).
Defined.

(** With a recursion limit below the depth of the tree [compress]
    raises [RecursionError]. *)
Example compress_out_of_fuel :
  (compress 3 sample_prepared).2 = Err RecursionError.
Proof. reflexivity. Qed.

(** Two captured intermediates for the head, on the host; the first
    carries a tensor among its keyword arguments. *)
Definition sample_intermediates : list (list pyobj * kwargs) :=
  [([PTensor (Tensor Cpu [1] [1%Q])], [("pos", PTensor (Tensor Cpu [1] [7%Q]))]);
   ([PTensor (Tensor Cpu [1] [2%Q])], [])].

Definition head_calibrated : world :=
  Eval vm_compute in (calibrate_layer sample_intermediates head_prepared).1.

Lemma calibrate_layer_outputs_witness :
  exists results,
    [Some (PTensor (Tensor Cpu [1] [1%Q]),
           [("pos", PTensor (Tensor Cpu [1] [7%Q]))]);
     Some (PTensor (Tensor Cpu [1] [2%Q]), [])]
    = map Some results /\
    calibrated head_prepared sample_intermediates results head_calibrated.
Proof.
  apply (proj1 (proj1 (calibrate_layer_outputs sample_intermediates
                         head_prepared head_calibrated _))).
  reflexivity.
Defined.

(** In that run the head is called on arguments that live on its
    execution device. *)
Example calibrate_layer_call_on_device :
  forall results,
    calibrated head_prepared sample_intermediates results head_calibrated ->
    exists a' kw' w1 out,
      Forall2 (moved (Cuda 0)) [PTensor (Tensor Cpu [1] [1%Q])] a' /\
      moved_kwargs (Cuda 0) [("pos", PTensor (Tensor Cpu [1] [7%Q]))] kw' /\
      forallb (on_device (Cuda 0)) a' = true /\
      module_call (layer (self head_prepared)) a' kw' head_prepared = (w1, Ok out).
Proof.
  intros results Hc.
  inversion Hc as [|? ? ? ? a' kw' out out' w1 outs ? Ha Hkw Hcall Hout Hrest];
    subst.
  exists a', kw', w1, out. repeat split; try assumption.
  apply moved_args_unique in Ha. now subst.
Qed.

(** Calibrating the head on two samples: two outputs, in order, each on
    the host and paired with the keyword arguments of its sample. *)
Example calibrate_layer_sample :
  let x := fun q => PTensor (Tensor Cpu [1] [q]) in
  (calibrate_layer [([x 1%Q], [("pos", PNone)]); ([x 2%Q], [])] head_prepared).2
  = Ok [Some (x 1%Q, [("pos", PNone)]); Some (x 2%Q, [])].
Proof. reflexivity. Qed.

End Compressor.

(** * Further properties of the output error meter *)

Module OutputErrorFacts.
Import OutputError.

(** Some output of a paired sequence is a zero-dimensional tensor. *)
Definition has_zero_dim {C : Type} (X : list (pyobj * C)) : bool :=
  existsb (fun p => match p.1 with
                    | PTensor t => bool_decide (t_shape t = [])
                    | _ => false
                    end) X.

(** A flattened entry is well formed when, being a tensor, it has as
    many entries as its shape says. *)
Definition well_formed_entry (o : pyobj) : bool :=
  match o with
  | PTensor t => (length (t_data t) =? foldr Nat.mul 1%nat (t_shape t))%nat
  | _ => true
  end.

Definition well_formed_outputs {C : Type} (X : list (pyobj * C)) : bool :=
  match flatten_outputs X with
  | Ok xs => forallb well_formed_entry xs
  | Err _ => false
  end.

Lemma flatten_outputs_errors {C : Type} (X : list (pyobj * C)) e :
  flatten_outputs X = Err e -> e = TypeError.
Proof.
  induction X as [|[o c] X IH]; simpl; [discriminate|].
  destruct o as [t|xs|]; simpl.
  - unfold tensor_iter. destruct (t_shape t); [now intros [= <-]|].
    destruct (flatten_outputs X); [discriminate|]. intros [= <-]. auto.
  - destruct (flatten_outputs X); [discriminate|]. intros [= <-]. auto.
  - destruct (flatten_outputs X); [discriminate|]. intros [= <-]. auto.
Qed.

Lemma flatten_outputs_zero_dim {C : Type} (X : list (pyobj * C)) :
  has_zero_dim X = true -> flatten_outputs X = Err TypeError.
Proof.
  induction X as [|[o c] X IH]; simpl; [discriminate|].
  intros [Hhead|Hrest]%orb_true_iff.
  - destruct o as [t| |]; try discriminate.
    apply bool_decide_eq_true in Hhead. simpl. unfold tensor_iter.
    now rewrite Hhead.
  - rewrite (IH Hrest). now destruct (outputs_list o) as [xs|e] eqn:Ho;
      [|rewrite (flatten_outputs_errors [(o, c)] e) by (simpl; now rewrite Ho)].
Qed.

Lemma flatten_outputs_fst {C C' : Type} (X : list (pyobj * C))
    (X' : list (pyobj * C')) :
  map fst X = map fst X' -> flatten_outputs X = flatten_outputs X'.
Proof.
  revert X'. induction X as [|[o c] X IH]; intros [|[o' c'] X']; simpl;
    try discriminate; [reflexivity|].
  intros [= <- Hrest]. now rewrite (IH X' Hrest).
Qed.

(** A scalar that, when it is a number, is not negative. *)
Definition nonneg (s : scalar) : Prop := forall q, s = Num q -> (0 <= q)%Q.

Lemma Qplus_nonneg (x y : Q) : (0 <= x -> 0 <= y -> 0 <= x + y)%Q.
Proof. intros Hx Hy. exact (Qplus_le_compat 0 x 0 y Hx Hy). Qed.

Lemma Qsum_abs_diff_nonneg xs ys : (0 <= Qsum (zip_with Qabs_diff xs ys))%Q.
Proof.
  revert ys. induction xs as [|x xs IH]; intros [|y ys]; simpl;
    try apply Qle_refl.
  apply Qplus_nonneg; [apply Qabs_nonneg | apply IH].
Qed.

Lemma sdiv_nonneg a n : nonneg a -> nonneg (sdiv a n).
Proof.
  intros Ha q. destruct a as [x| |]; simpl; try discriminate.
  destruct n as [|n]; [destruct (Qeq_bool x 0); discriminate|].
  intros [= <-]. apply Qle_shift_div_l.
  - change 0%Q with (inject_Z 0). rewrite <- Zlt_Qlt. lia.
  - rewrite Qmult_0_l. now apply Ha.
Qed.

Lemma sadd_nonneg a b : nonneg a -> nonneg b -> nonneg (sadd a b).
Proof.
  intros Ha Hb q. destruct a as [x| |], b as [y| |]; simpl; try discriminate.
  intros [= <-]. apply Qplus_nonneg; [now apply Ha | now apply Hb].
Qed.

Lemma fold_left_sadd_nonneg ls a :
  nonneg a -> Forall nonneg ls -> nonneg (fold_left sadd ls a).
Proof.
  intros Ha Hls. revert a Ha.
  induction Hls as [|l ls Hl _ IH]; intros a Ha; simpl; auto.
  apply IH. now apply sadd_nonneg.
Qed.

Section Facts.
Variable l1_broadcast : tensor -> tensor -> option scalar.

(** X1. An output that is a zero-dimensional tensor, on either side,
    makes [get_output_error] raise [TypeError]: a tensor counts as
    iterable and is iterated along a first dimension it does not have. *)
Theorem get_output_error_zero_dim {C : Type}
    (unquantized quantized : list (pyobj * C)) :
  has_zero_dim unquantized = true \/ has_zero_dim quantized = true ->
  get_output_error l1_broadcast unquantized quantized = Err TypeError.
Proof.
  unfold get_output_error. intros [Hu|Hq].
  - now rewrite (flatten_outputs_zero_dim _ Hu).
  - rewrite (flatten_outputs_zero_dim _ Hq).
    destruct (flatten_outputs unquantized) as [us|e] eqn:Hu; [reflexivity|].
    now rewrite (flatten_outputs_errors _ _ Hu).
Qed.

(** X2. The assertion on the tensor counts does not catch a
    misalignment. When lengths and counts agree but some position holds
    a tensor on the unquantized side and none on the quantized side, no
    value is returned: the call raises from [l1_loss], with
    [AttributeError] or, if an earlier pair could not be broadcast,
    [RuntimeError]. *)
Theorem get_output_error_misaligned_raises {C : Type}
    (unquantized quantized : list (pyobj * C)) (us qs : list pyobj)
    (i : nat) (u q : pyobj) :
  flatten_outputs unquantized = Ok us ->
  flatten_outputs quantized = Ok qs ->
  length us = length qs ->
  count_tensors us = count_tensors qs ->
  us !! i = Some u -> qs !! i = Some q ->
  is_tensor u = true -> is_tensor q = false ->
  get_output_error l1_broadcast unquantized quantized = Err AttributeError \/
  get_output_error l1_broadcast unquantized quantized = Err RuntimeError.
Proof.
  intros Hu Hq Hlen Hcnt Hiu Hiq Htu Htq.
  unfold get_output_error. rewrite Hu, Hq, Hlen, Nat.eqb_refl, Hcnt, Nat.eqb_refl.
  cbn [negb].
  destruct (pair_losses l1_broadcast (zip us qs)) as [ls|e] eqn:Hp.
  - exfalso. apply pair_losses_ok_snd in Hp.
    rewrite Forall_forall in Hp.
    assert (Hin : (u, q) ∈ zip us qs).
    { apply (list_elem_of_lookup_2 _ i).
      rewrite lookup_zip_with, Hiu. simpl. now rewrite Hiq. }
    specialize (Hp _ Hin Htu). unfold snd_tensor in Hp. simpl in Hp. congruence.
  - destruct (pair_losses_errors _ _ _ Hp) as [-> | ->]; auto.
Qed.

(** X3. The second component of a pair, its context, is never looked
    at: inputs with the same outputs give the same result, whatever
    their contexts are. *)
Theorem get_output_error_ignores_context {C C' : Type}
    (unquantized quantized : list (pyobj * C))
    (unquantized' quantized' : list (pyobj * C')) :
  map fst unquantized = map fst unquantized' ->
  map fst quantized = map fst quantized' ->
  get_output_error l1_broadcast unquantized quantized
  = get_output_error l1_broadcast unquantized' quantized'.
Proof.
  intros Hu Hq. unfold get_output_error.
  now rewrite (flatten_outputs_fst _ _ Hu), (flatten_outputs_fst _ _ Hq).
Qed.

Lemma zip_with_abs_diff_sym (da db : list Q) :
  zip_with Qabs_diff da db = zip_with Qabs_diff db da.
Proof.
  revert db. induction da as [|x da IH]; intros [|y db]; simpl; try reflexivity.
  unfold Qabs_diff at 1 3. now rewrite Qabs_Qminus, IH.
Qed.

Lemma l1_loss_sym (a b : tensor) (s : scalar) :
  (forall x y, l1_broadcast x y = l1_broadcast y x) ->
  well_formed_entry (PTensor a) = true ->
  well_formed_entry (PTensor b) = true ->
  l1_loss l1_broadcast a (PTensor b) = Ok s ->
  l1_loss l1_broadcast b (PTensor a) = Ok s.
Proof.
  intros Hsym Ha Hb. simpl in Ha, Hb.
  apply Nat.eqb_eq in Ha. apply Nat.eqb_eq in Hb. unfold l1_loss.
  destruct (decide (t_shape a = t_shape b)) as [Heq|Hne].
  - rewrite decide_True by (now symmetry). intros [= <-].
    rewrite zip_with_abs_diff_sym.
    replace (length (t_data b)) with (length (t_data a))
      by (rewrite Ha, Hb; now rewrite Heq).
    reflexivity.
  - rewrite decide_False by (intros Heq; now apply Hne).
    now rewrite (Hsym b a).
Qed.

Lemma pair_losses_swap : forall us qs ls,
  (forall x y, l1_broadcast x y = l1_broadcast y x) ->
  forallb well_formed_entry us = true ->
  forallb well_formed_entry qs = true ->
  Forall (fun p => snd_tensor p -> fst_tensor p) (zip us qs) ->
  pair_losses l1_broadcast (zip us qs) = Ok ls ->
  pair_losses l1_broadcast (zip qs us) = Ok ls.
Proof.
  induction us as [|u us IH]; intros [|q qs] ls Hsym Hwu Hwq Hall;
    try (simpl; intros [= <-]; reflexivity).
  simpl in Hwu, Hwq.
  apply andb_true_iff in Hwu as [Hu Hwu]. apply andb_true_iff in Hwq as [Hq Hwq].
  inversion Hall as [|? ? Hhead Hrest]; subst.
  destruct u as [tu| |], q as [tq| |]; cbn [zip_with pair_losses].
  - destruct (l1_loss l1_broadcast tu (PTensor tq)) as [s|] eqn:Hl; [|discriminate].
    rewrite (l1_loss_sym _ _ _ Hsym Hu Hq Hl).
    destruct (pair_losses l1_broadcast (zip us qs)) as [ss|] eqn:Hp; [|discriminate].
    intros [= <-]. now rewrite (IH qs ss Hsym Hwu Hwq Hrest Hp).
  - discriminate.
  - discriminate.
  - exfalso. unfold snd_tensor, fst_tensor in Hhead. simpl in Hhead.
    specialize (Hhead eq_refl). discriminate.
  - intros Hp. now apply IH.
  - intros Hp. now apply IH.
  - exfalso. unfold snd_tensor, fst_tensor in Hhead. simpl in Hhead.
    specialize (Hhead eq_refl). discriminate.
  - intros Hp. now apply IH.
  - intros Hp. now apply IH.
Qed.

(** X4. The meter is symmetric on the values it returns: for well
    formed tensors, and a torch whose loss on broadcast shapes does not
    depend on the order of its operands, a value returned for
    (unquantized, quantized) is returned for (quantized, unquantized)
    as well. *)
Theorem get_output_error_symmetric {C : Type}
    (unquantized quantized : list (pyobj * C)) (r : pynum) :
  (forall x y, l1_broadcast x y = l1_broadcast y x) ->
  well_formed_outputs unquantized = true ->
  well_formed_outputs quantized = true ->
  get_output_error l1_broadcast unquantized quantized = Ok r ->
  get_output_error l1_broadcast quantized unquantized = Ok r.
Proof.
  intros Hsym. unfold well_formed_outputs, get_output_error.
  destruct (flatten_outputs unquantized) as [us|]; [|discriminate].
  destruct (flatten_outputs quantized) as [qs|]; [|discriminate].
  intros Hwu Hwq.
  destruct (Nat.eqb_spec (length us) (length qs)) as [Hlen|]; [|discriminate].
  destruct (Nat.eqb_spec (count_tensors qs) (count_tensors us)) as [Hcnt|];
    [|discriminate].
  cbn [negb].
  destruct (pair_losses l1_broadcast (zip us qs)) as [ls|] eqn:Hp; [|discriminate].
  rewrite <- Hlen, Nat.eqb_refl, Hcnt, Nat.eqb_refl. cbn [negb].
  pose proof (pair_losses_ok_snd _ _ _ Hp) as Hsnd.
  destruct (filter_both_fst _ Hsnd) as [_ Hfst].
  { now rewrite count_tensors_zip_fst, count_tensors_zip_snd. }
  now rewrite (pair_losses_swap _ _ _ Hsym Hwu Hwq Hfst Hp).
Qed.

Lemma pair_losses_nonneg ps ls :
  (forall a b s, l1_broadcast a b = Some s -> nonneg s) ->
  pair_losses l1_broadcast ps = Ok ls -> Forall nonneg ls.
Proof.
  intros Hb. revert ls. induction ps as [|[u q] ps IH]; intros ls; simpl.
  - intros [= <-]. constructor.
  - destruct u as [unq| |]; eauto.
    destruct (l1_loss l1_broadcast unq q) as [s|] eqn:Hs; [|discriminate].
    destruct (pair_losses l1_broadcast ps) as [ss|]; [|discriminate].
    intros [= <-]. constructor; [|eauto].
    unfold l1_loss in Hs. destruct q as [tq| |]; try discriminate.
    destruct (decide _).
    + assert (Hn : nonneg (sdiv (Num (Qsum (zip_with Qabs_diff (t_data unq)
                                             (t_data tq))))
                            (length (t_data unq)))).
      { apply sdiv_nonneg. intros x [= <-]. apply Qsum_abs_diff_nonneg. }
      assert (Hs' : sdiv (Num (Qsum (zip_with Qabs_diff (t_data unq)
                                       (t_data tq))))
                      (length (t_data unq)) = s) by congruence.
      now rewrite <- Hs'.
    + destruct (l1_broadcast unq tq) eqn:Hbc; [|discriminate].
      injection Hs as <-. eauto.
Qed.

(** X15. The meter never reports a negative error. With a torch whose
    loss on broadcast shapes is not negative, every value that
    [get_output_error] returns is a scalar tensor that is NaN,
    infinite, or a number not below zero. *)
Theorem get_output_error_nonnegative {C : Type}
    (unquantized quantized : list (pyobj * C)) (r : pynum) :
  (forall a b s, l1_broadcast a b = Some s -> nonneg s) ->
  get_output_error l1_broadcast unquantized quantized = Ok r ->
  exists s, r = PyTensor s /\
            (s = NaN \/ s = PInf \/ exists q, s = Num q /\ (0 <= q)%Q).
Proof.
  intros Hb. unfold get_output_error.
  destruct (flatten_outputs unquantized) as [us|]; [|discriminate].
  destruct (flatten_outputs quantized) as [qs|]; [|discriminate].
  destruct (Nat.eqb_spec (length us) (length qs)) as [Hlen|]; [|discriminate].
  destruct (Nat.eqb_spec (count_tensors qs) (count_tensors us)) as [Hcnt|];
    [|discriminate].
  cbn [negb].
  destruct (pair_losses l1_broadcast (zip us qs)) as [losses|] eqn:Ep;
    [|discriminate].
  pose proof (pair_losses_nonneg _ _ Hb Ep) as Hnn.
  pose proof (pair_losses_positions _ _ _ Ep) as Hpos.
  pose proof (position_losses_length _ _ _ Hpos) as Hll.
  rewrite count_tensors_zip_fst in Hll by assumption.
  destruct losses as [|l ls].
  - simpl in Hll. rewrite Hcnt, <- Hll. discriminate.
  - rewrite py_sum_cons. unfold py_div. intros [= <-].
    eexists. split; [reflexivity|].
    inversion Hnn as [|? ? Hl Hls]; subst.
    assert (Hres : nonneg (sdiv (fold_left sadd ls (sadd (Num 0%Q) l))
                             (count_tensors qs))).
    { apply sdiv_nonneg, fold_left_sadd_nonneg; [|assumption].
      apply sadd_nonneg; [|assumption]. intros q [= <-]. apply Qle_refl. }
    destruct (sdiv _ _) as [q| |]; [|auto|auto].
    right; right. exists q. split; [reflexivity|]. now apply Hres.
Qed.

End Facts.

Lemma get_output_error_zero_dim_witness :
  get_output_error no_broadcast
    [(PSeq [PTensor (vec 1 2)], tt)]
    [(PTensor (Tensor Cpu [] [3%Q]), tt)]
  = Err TypeError.
Proof.
  apply (get_output_error_zero_dim no_broadcast
           [(PSeq [PTensor (vec 1 2)], tt)]
           [(PTensor (Tensor Cpu [] [3%Q]), tt)]).
  right. reflexivity.
Defined.

Lemma get_output_error_misaligned_raises_witness :
  get_output_error no_broadcast sample_unquantized sample_misaligned
    = Err AttributeError \/
  get_output_error no_broadcast sample_unquantized sample_misaligned
    = Err RuntimeError.
Proof.
  apply (get_output_error_misaligned_raises no_broadcast
           sample_unquantized sample_misaligned
           [PTensor (vec 1 2); PNone; PTensor (vec 1 2); PTensor (vec 3 5)]
           [PNone; PTensor (vec 2 4); PTensor (vec 1 1); PTensor (vec 1 1)]
           0 (PTensor (vec 1 2)) PNone); reflexivity.
Defined.

Lemma get_output_error_ignores_context_witness :
  get_output_error no_broadcast sample_unquantized sample_quantized
  = get_output_error no_broadcast
      [(PSeq [PTensor (vec 1 2); PNone], true); (PTensor (mat 1 2 3 5), false)]
      [(PSeq [PTensor (vec 2 4); PNone], false); (PTensor (mat 1 1 1 1), true)].
Proof.
  apply (get_output_error_ignores_context no_broadcast); reflexivity.
Defined.

Lemma get_output_error_symmetric_witness :
  get_output_error no_broadcast sample_quantized sample_unquantized
  = Ok (PyTensor (Num (40 # 24))).
Proof.
  apply (get_output_error_symmetric no_broadcast
           sample_unquantized sample_quantized); reflexivity.
Defined.

Lemma get_output_error_nonnegative_witness :
  exists s, PyTensor (Num (40 # 24)) = PyTensor s /\
            (s = NaN \/ s = PInf \/ exists q, s = Num q /\ (0 <= q)%Q).
Proof.
  apply (get_output_error_nonnegative no_broadcast
           sample_unquantized sample_quantized).
  - discriminate.
  - reflexivity.
Defined.

End OutputErrorFacts.

(** * Further properties of the orchestrator *)

Module CompressorFacts.
Import Compressor.
Local Open Scope py_scope.

Section EarlyStopFacts.
Context `{Externals}.

(** A module that carries a forward pre-hook raises the early-stop
    signal when called, before its own [forward]. *)
Lemma module_call_pre_hooked l m a kw w :
  heap w !! l = Some m ->
  m_forward_pre_hooks m <> [] ->
  module_call l a kw w = (w, Err (EarlyStopException a kw)).
Proof.
  intros Hm Hne. unfold module_call, run_forward_pre_hooks, get_module, bind.
  rewrite Hm. destruct (m_forward_pre_hooks m) as [|[id []] rest]; [congruence|].
  reflexivity.
Qed.

(** The ids of the layer's forward pre-hooks are below the next id to
    be issued, as they are when all ids come from the one counter. *)
Definition pre_hook_ids_fresh (w : world) : Prop :=
  forall m e, heap w !! layer (self w) = Some m ->
              e ∈ m_forward_pre_hooks m -> e.1 < next_hook_id w.

Lemma set_forward_pre_hooks_same m hs :
  set_forward_pre_hooks (m_forward_pre_hooks m) (set_forward_pre_hooks hs m) = m.
Proof. now destruct m. Qed.

(** X5. [set_early_stop] followed by [clear_early_stop] is a round
    trip: the arena is exactly as before, the handle is cleared, and
    nothing else of the instance has changed. *)
Theorem early_stop_set_then_clear (w w1 : world) :
  pre_hook_ids_fresh w ->
  set_early_stop w = (w1, Ok tt) ->
  exists w2,
    clear_early_stop w1 = (w2, Ok tt) /\
    heap w2 = heap w /\
    self w2 = set_early_stop_handle None (self w) /\
    trace w2 = trace w /\
    grad_enabled w2 = grad_enabled w.
Proof.
  intros Hfresh.
  unfold set_early_stop, get_self, register_forward_pre_hook, put_self, bind.
  destruct (heap w !! layer (self w)) as [m|] eqn:Hm; [|discriminate].
  intros [= <-].
  unfold clear_early_stop, get_self, handle_remove, put_self, bind. simpl.
  rewrite list_lookup_insert_eq by (eapply lookup_lt_Some; eauto).
  eexists. split; [reflexivity|]. simpl. repeat split.
  rewrite list_insert_insert_eq. apply list_insert_id. rewrite Hm. f_equal.
  unfold remove_hook. simpl.
  rewrite dict_set_absent.
  - rewrite (dict_del_first _ _ _ []), app_nil_r.
    + symmetry. apply set_forward_pre_hooks_same.
    + intros Hin. apply list_elem_of_fmap in Hin as (e & He1 & He).
      specialize (Hfresh m e Hm He). lia.
  - intros Hin. apply list_elem_of_fmap in Hin as (e & He1 & He).
    specialize (Hfresh m e Hm He). lia.
Qed.

(** X6. [clear_early_stop] always returns, leaves no handle, and a
    second call changes nothing. *)
Theorem clear_early_stop_idempotent (w : world) :
  exists w',
    clear_early_stop w = (w', Ok tt) /\
    early_stop_handle (self w') = None /\
    clear_early_stop w' = (w', Ok tt).
Proof.
  unfold clear_early_stop, get_self, bind.
  destruct (early_stop_handle (self w)) as [hd|] eqn:Hh.
  - unfold handle_remove, put_self.
    destruct (heap w !! h_module hd); eexists; (split; [reflexivity|]); simpl; auto.
  - exists w. unfold ret. rewrite Hh. auto.
Qed.

(** X7. The instance remembers one handle only. After two calls of
    [set_early_stop], [clear_early_stop] removes the second hook and
    forgets the first, which stays on the layer: the layer still raises
    the early-stop signal on every call. *)
Theorem early_stop_set_twice_leaks (w w1 w2 : world) (a : list pyobj)
    (kw : kwargs) :
  set_early_stop w = (w1, Ok tt) ->
  set_early_stop w1 = (w2, Ok tt) ->
  exists w3,
    clear_early_stop w2 = (w3, Ok tt) /\
    early_stop_handle (self w3) = None /\
    module_call (layer (self w)) a kw w3 = (w3, Err (EarlyStopException a kw)).
Proof.
  unfold set_early_stop, get_self, register_forward_pre_hook, put_self, bind.
  destruct (heap w !! layer (self w)) as [m|] eqn:Hm; [|discriminate].
  intros [= <-]. simpl.
  rewrite list_lookup_insert_eq by (eapply lookup_lt_Some; eauto).
  intros [= <-].
  unfold clear_early_stop, get_self, handle_remove, put_self, bind. simpl.
  rewrite list_lookup_insert_eq
    by (rewrite length_insert; eapply lookup_lt_Some; eauto).
  eexists. split; [reflexivity|]. simpl. split; [reflexivity|].
  eapply module_call_pre_hooked.
  - simpl. apply list_lookup_insert_eq.
    rewrite !length_insert. eapply lookup_lt_Some; eauto.
  - unfold remove_hook. simpl. intros Hnil.
    assert (Hget : dict_get (next_hook_id w)
              (dict_del (S (next_hook_id w))
                 (dict_set (S (next_hook_id w)) EarlyStopHook
                    (dict_set (next_hook_id w) EarlyStopHook
                       (m_forward_pre_hooks m)))) = Some EarlyStopHook).
    { rewrite dict_get_del_ne by lia. rewrite dict_get_set.
      rewrite decide_False by lia. rewrite dict_get_set.
      now rewrite decide_True. }
    rewrite Hnil in Hget. discriminate.
Qed.

(** X8. With the early-stop hook still in place, [calibrate_layer]
    raises on its first sample: the signal carries that sample's
    arguments as moved to the layer's execution device, and nothing has
    been run or cleaned up. *)
Theorem calibrate_layer_early_stop (w w1 : world) (a : list pyobj)
    (kw : kwargs) (rest : list (list pyobj * kwargs)) :
  set_early_stop w = (w1, Ok tt) ->
  calibrate_layer ((a, kw) :: rest) w1
  = (w1,
     Err (EarlyStopException
            (args_to_device a (get_execution_device (heap w1) (layer (self w1))))
            (kwargs_to_device kw
               (get_execution_device (heap w1) (layer (self w1)))))).
Proof.
  intros Hset. unfold calibrate_layer. cbn [length seq calibrate_loop].
  unfold bind. rewrite (calibrate_sample_run _ _ _ a kw) by reflexivity.
  revert Hset.
  unfold set_early_stop, get_self, register_forward_pre_hook, put_self, bind.
  destruct (heap w !! layer (self w)) as [m|] eqn:Hm; [|discriminate].
  intros [= <-].
  erewrite module_call_pre_hooked; [reflexivity| |].
  - simpl. apply list_lookup_insert_eq. eapply lookup_lt_Some; eauto.
  - simpl. destruct (dict_set_cons (next_hook_id w) EarlyStopHook
                       (m_forward_pre_hooks m)) as (p & tl & ->). discriminate.
Qed.

End EarlyStopFacts.

Section LifecycleOrder.
Context `{Externals}.

Lemma wrap_loop_needs_registry subset : forall ns w w',
  for_each ns (wrap_module subset) w = (w', Ok tt) ->
  modules (self w) = None -> ns = [] /\ w' = w.
Proof.
  intros [|n ns] w w'; simpl.
  - intros [= <-]. auto.
  - intros (w1 & [] & Hstep & _)%bind_inv_ok Hnone. exfalso.
    rewrite wrap_module_eq in Hstep.
    destruct (dict_get n subset); [|discriminate]. cbv zeta in Hstep.
    destruct (set_layer_heap _ _ _ _); [|discriminate].
    rewrite Hnone in Hstep. discriminate.
Qed.

(** X9. An instance is used up by [revert_layer_wrappers]: once it has
    returned, [pre_compress] on the same instance never returns
    normally, because the registry is [None]. *)
Theorem pre_compress_after_revert_fails (w w1 w2 : world) :
  revert_layer_wrappers w = (w1, Ok tt) ->
  pre_compress w1 <> (w2, Ok tt).
Proof.
  intros Hrev%revert_clears_registry Hpre.
  apply pre_compress_inv in Hpre as (wa & l & d & Hwrap & _ & Hd & _).
  destruct (wrap_loop_needs_registry _ _ _ _ Hwrap Hrev) as [_ ->].
  congruence.
Qed.

(** A module that carries a forward hook. *)
Definition hooked (h : list torch_module) (l : nat) : Prop :=
  exists m, h !! l = Some m /\ m_forward_hooks m <> [].

Lemma hooked_view h h' l :
  hooks_view h' = hooks_view h -> hooked h l -> hooked h' l.
Proof.
  intros Hview (m & Hm & Hne).
  assert (Hlook : hooks_view h' !! l = Some (m_forward_hooks m))
    by (rewrite Hview, hooks_view_lookup, Hm; reflexivity).
  rewrite hooks_view_lookup in Hlook.
  destruct (h' !! l) as [m'|] eqn:Hm'; [|discriminate].
  injection Hlook as Hlook. exists m'. split; [exact Hm'|congruence].
Qed.

Lemma hook_loop_hooked subset : forall ns w w',
  for_each ns (hook_module subset) w = (w', Ok tt) ->
  (forall l, hooked (heap w) l -> hooked (heap w') l) /\
  (forall n l, n ∈ ns -> dict_get n subset = Some l -> hooked (heap w') l).
Proof.
  induction ns as [|n ns IH]; intros w w'; simpl.
  - intros [= <-]. split; [auto|]. intros n l Hin. now apply elem_of_nil in Hin.
  - intros (w1 & [] & Hstep & Hrest)%bind_inv_ok.
    rewrite hook_module_eq in Hstep.
    destruct (dict_get n subset) as [l0|] eqn:Hl0; [|discriminate].
    destruct (heap w !! l0) as [m0|] eqn:Hm0; [|discriminate].
    cbv zeta in Hstep. injection Hstep as <-.
    destruct (IH _ _ Hrest) as [Hkeep Hnew]. simpl in Hkeep.
    assert (Hl0' : hooked
              (<[l0 := set_forward_hooks
                         (dict_set (next_hook_id w) (AddBatchHook n)
                            (m_forward_hooks m0)) m0]> (heap w)) l0).
    { eexists. split.
      - apply list_lookup_insert_eq. eapply lookup_lt_Some; eauto.
      - simpl. destruct (dict_set_cons (next_hook_id w) (AddBatchHook n)
                           (m_forward_hooks m0)) as (p & tl & ->). discriminate. }
    split.
    + intros l Hl. apply Hkeep.
      destruct (decide (l = l0)) as [->|Hne]; [exact Hl0'|].
      destruct Hl as (m & Hm & Hhooks). exists m.
      split; [now rewrite list_lookup_insert_ne by congruence | assumption].
    + intros k l Hk Hl. apply elem_of_cons in Hk as [->|Hk].
      * assert (l = l0) by congruence. subst. apply Hkeep. exact Hl0'.
      * eapply Hnew; eauto.
Qed.

Lemma revert_loop_hooks : forall items w w',
  for_each items revert_module w = (w', Ok tt) ->
  hooks_view (heap w') = hooks_view (heap w).
Proof.
  induction items as [|[n W] items IH]; intros w w'; cbn [for_each].
  - now intros [= <-].
  - intros (w1 & [] & Hstep & Hrest)%bind_inv_ok.
    rewrite revert_module_eq in Hstep.
    destruct (getattr_module (heap w) W "layer"); [|discriminate].
    destruct (set_layer_heap _ _ _ (heap w)) as [h2|] eqn:Hset; [|discriminate].
    injection Hstep as <-. rewrite (IH _ _ Hrest). simpl.
    unfold hooks_view. now apply set_layer_heap_hooks in Hset.
Qed.

(** X10. The order of the last two steps matters. If
    [revert_layer_wrappers] runs while the statistic hooks are still
    attached (no [post_compress] in between), the hooks stay on the
    compressible modules with their registry gone: running the forward
    hooks of any compressible module then raises [TypeError]. *)
Theorem revert_before_post_compress_breaks_hooks (w0 w1 w2 : world)
    (n : string) (l : nat) (a : list pyobj) (out : pyobj) :
  modules (self w0) = Some [] ->
  NoDup (map fst (get_prunable_layers (heap w0) (layer (self w0)))) ->
  pre_compress w0 = (w1, Ok tt) ->
  revert_layer_wrappers w1 = (w2, Ok tt) ->
  dict_get n (get_prunable_layers (heap w0) (layer (self w0))) = Some l ->
  run_forward_hooks l a out w2 = (w2, Err TypeError).
Proof.
  intros Hmods Hnd Hpre Hrev Hl.
  pose proof (revert_clears_registry _ _ Hrev) as Hnone.
  apply pre_compress_inv in Hpre as (wa & l' & d & Hwrap & _ & Hd & Hhook).
  destruct (wrap_loop_inv _ _ _ _ _ Hwrap Hmods)
    as (_ & _ & _ & d' & Hd' & Hkeys).
  assert (d' = d) by congruence. subst d'.
  rewrite (Hkeys Hnd) in Hhook
    by (intros k _ Hin; now apply elem_of_nil in Hin).
  simpl in Hhook.
  destruct (hook_loop_hooked _ _ _ _ Hhook) as [_ Hnew].
  assert (Hhooked1 : hooked (heap w1) l).
  { eapply Hnew; eauto. eapply dict_get_Some_keys; eauto. }
  assert (Hhooked2 : hooked (heap w2) l).
  { revert Hrev. unfold revert_layer_wrappers, modules_items, bind at 1.
    destruct (modules (self w1)) as [items|]; [|discriminate].
    intros (w2' & [] & Hloop & Hput)%bind_inv_ok.
    unfold get_self, put_self, bind in Hput. injection Hput as <-. simpl.
    eapply hooked_view; [|exact Hhooked1]. eapply revert_loop_hooks; eauto. }
  destruct Hhooked2 as (m2 & Hm2 & Hne).
  unfold run_forward_hooks, get_module, bind. rewrite Hm2.
  destruct (m_forward_hooks m2) as [|[id [nm]] tl]; [congruence|].
  simpl. unfold bind, get_self. rewrite Hnone. reflexivity.
Qed.

(** [Module.apply] with [compress_module] only writes to the event log,
    and what it writes and how it ends depend on the arena and on the
    instance alone. *)
Lemma module_apply_logs_only fuel : forall l h lc,
  exists evs r, forall w,
    heap w = h -> self w = lc ->
    module_apply fuel compress_module l w = (set_trace (trace w ++ evs) w, r).
Proof.
  induction fuel as [|fuel IH]; intros l h lc.
  - exists [], (Err RecursionError). intros w _ _. simpl. unfold raise.
    now rewrite app_nil_r, set_trace_id.
  - cbn [module_apply]. destruct (h !! l) as [m|] eqn:Hm.
    2:{ exists [], (Err RuntimeError). intros w Hh _.
        unfold bind, get_module. rewrite Hh, Hm.
        now rewrite app_nil_r, set_trace_id. }
    assert (Hloop : forall ks, exists evs r, forall w,
               heap w = h -> self w = lc ->
               for_each ks (module_apply fuel compress_module) w
               = (set_trace (trace w ++ evs) w, r)).
    { induction ks as [|k ks IHks].
      - exists [], (Ok tt). intros w _ _. simpl. unfold ret.
        now rewrite app_nil_r, set_trace_id.
      - destruct (IH k h lc) as (e1 & r1 & H1).
        destruct IHks as (e2 & r2 & H2).
        destruct r1 as [[]|err].
        + exists (e1 ++ e2), r2. intros w Hh Hs. simpl. unfold bind.
          rewrite (H1 w Hh Hs), H2 by assumption. simpl.
          now rewrite app_assoc.
        + exists e1, (Err err). intros w Hh Hs. simpl. unfold bind.
          now rewrite (H1 w Hh Hs). }
    destruct (Hloop (children m)) as (e1 & r1 & H1).
    destruct r1 as [[]|err].
    + exists (e1 ++ wrapper_events h (args lc) l), (Ok tt). intros w Hh Hs.
      unfold bind, get_module. rewrite Hh, Hm, <- Hh.
      rewrite (H1 w Hh Hs).
      erewrite compress_module_run by (simpl; rewrite Hh; exact Hm).
      simpl. now rewrite Hh, Hs, app_assoc.
    + exists e1, (Err err). intros w Hh Hs.
      unfold bind, get_module. rewrite Hh, Hm.
      now rewrite (H1 w Hh Hs).
Qed.

(** With the wrappers' own [compress] and [free] recorded as events,
    a run of [compress] is the world it started from with further
    events, and which events and which outcome depend on the arena and
    on the instance alone. *)
Lemma compress_frame (fuel : nat) (w : world) :
  exists evs r,
    compress fuel w = (set_trace (trace w ++ evs) w, r) /\
    forall w', heap w' = heap w -> self w' = self w ->
               compress fuel w' = (set_trace (trace w' ++ evs) w', r).
Proof.
  destruct (module_apply_logs_only fuel (layer (self w)) (heap w) (self w))
    as (e1 & r1 & H1).
  assert (Hall : exists evs r, forall w',
            heap w' = heap w -> self w' = self w ->
            compress fuel w' = (set_trace (trace w' ++ evs) w', r)).
  { destruct r1 as [[]|err].
    - exists (e1 ++ map EvSynchronize (seq 0 cuda_device_count) ++ [EvEmptyCache]),
             (Ok tt).
      intros w' Hh Hs. unfold compress, get_self, bind. rewrite Hs.
      rewrite (H1 w' Hh Hs), synchronize_devices_run. unfold emit. simpl.
      now rewrite <- !app_assoc.
    - exists e1, (Err err). intros w' Hh Hs.
      unfold compress, get_self, bind. rewrite Hs. now rewrite (H1 w' Hh Hs). }
  destruct Hall as (evs & r & Hall). exists evs, r. split; auto.
Qed.

End LifecycleOrder.

Section FullLifecycle.
Context `{Externals}.

Lemma lookup_same_view {A : Type} (f : torch_module -> A) h h' o m :
  map f h' = map f h -> h !! o = Some m ->
  exists m', h' !! o = Some m' /\ f m' = f m.
Proof.
  intros Hmap Hm.
  assert (Hlook : f <$> (h' !! o) = f <$> (h !! o)).
  { rewrite <- !list_lookup_fmap.
    change (map f h' !! o = map f h !! o). now rewrite Hmap. }
  rewrite Hm in Hlook. simpl in Hlook.
  destruct (h' !! o) as [m'|] eqn:Hm'; [|discriminate].
  injection Hlook as Hlook. eauto.
Qed.

Lemma remove_hook_keeps hd m :
  m_modules (remove_hook hd m) = m_modules m /\
  m_class (remove_hook hd m) = m_class m.
Proof. unfold remove_hook. destruct (h_kind hd); auto. Qed.

(** Removing handles touches neither children nor classes. *)
Lemma remove_loop_tree : forall hs w w',
  for_each hs handle_remove w = (w', Ok tt) ->
  map m_modules (heap w') = map m_modules (heap w) /\
  map m_class (heap w') = map m_class (heap w).
Proof.
  induction hs as [|hd hs IH]; intros w w'; simpl.
  - intros [= <-]. auto.
  - intros (w1 & [] & Hstep & Hrest)%bind_inv_ok.
    destruct (IH _ _ Hrest) as [Htree Hcls]. rewrite Htree, Hcls.
    unfold handle_remove in Hstep.
    destruct (heap w !! h_module hd) as [m|] eqn:Hm; injection Hstep as <-;
      [|auto].
    simpl. destruct (remove_hook_keeps hd m) as [Hms Hc]. split.
    + change (m_modules <$> <[h_module hd:=remove_hook hd m]> (heap w)
              = m_modules <$> heap w).
      rewrite list_fmap_insert, Hms. apply list_insert_id.
      now rewrite list_lookup_fmap, Hm.
    + change (m_class <$> <[h_module hd:=remove_hook hd m]> (heap w)
              = m_class <$> heap w).
      rewrite list_fmap_insert, Hc. apply list_insert_id.
      now rewrite list_lookup_fmap, Hm.
Qed.

Lemma Registry_same_tree h0 subset h h' d :
  map m_modules h' = map m_modules h ->
  map m_class h' = map m_class h ->
  Registry h0 subset h d -> Registry h0 subset h' d.
Proof.
  intros Htree Hcls Hreg. eapply Forall_impl; [exact Hreg|].
  intros [n W]. simpl. intros (Hfresh & l & mW & Hl & HW & Hwrapper & Hlayer).
  split; [assumption|].
  destruct (lookup_same_view m_modules _ _ _ _ Htree HW) as (m1 & Hm1 & Hms).
  destruct (lookup_same_view m_class _ _ _ _ Hcls HW) as (m2 & Hm2 & Hc).
  assert (m2 = m1) by congruence. subst m2.
  exists l, m1. rewrite Hms, Hc. auto.
Qed.

(** [pre_compress] returns on a well addressed layer and leaves the
    facts that [revert_layer_wrappers] needs. *)
Lemma pre_compress_prepares (w0 : world) :
  modules (self w0) = Some [] ->
  well_addressed (heap w0) (self w0)
    (get_prunable_layers (heap w0) (layer (self w0))) = true ->
  get_layer (heap w0) (split_dots (name (self w0))) (model (self w0))
    = Ok (layer (self w0)) ->
  exists w1 d,
    pre_compress w0 = (w1, Ok tt) /\
    modules (self w1) = Some d /\
    Inv (heap w0) (self w0) (map fst d) (heap w1) /\
    Registry (heap w0) (get_prunable_layers (heap w0) (layer (self w0)))
      (heap w1) d /\
    target_ok (heap w0) (self w0) (self w1).
Proof.
  intros Hmods Haddr Hlayer.
  set (h0 := heap w0). set (lc0 := self w0).
  set (subset := get_prunable_layers h0 (layer lc0)).
  set (D := map fst subset).
  assert (Htarget0 : target_ok h0 lc0 lc0) by (repeat split; auto).
  destruct (wrap_loop_run h0 lc0 subset Haddr D D [] w0 [])
    as (wa & d & Hwrap & HIa & _ & Htargeta & _ & Hda & Hrega & Hkeysa).
  { intros n Hn. split; [assumption|]. now apply dict_get_keys_Some. }
  { apply Inv_init. }
  { intros n p a Hn. now apply elem_of_nil in Hn. }
  { exact Htarget0. }
  { exact Hmods. }
  { constructor. }
  destruct Htargeta as (Hmodela & Hnamea & _).
  destruct (get_layer_total h0 lc0 D (heap wa) _ _ _ HIa Hlayer)
    as (l' & Hl' & Hl'ok).
  assert (Hkeys_d : forall n, n ∈ map fst d -> exists l,
             dict_get n subset = Some l /\ l < length h0).
  { intros n Hn. apply Hkeysa in Hn as [Hn|Hn]; [now apply elem_of_nil in Hn|].
    apply dict_get_keys_Some in Hn as (l & Hl). exists l. split; [assumption|].
    pose proof (subset_addressed h0 lc0 subset Haddr _ _ Hl) as Ha.
    apply addressed_spec in Ha as (_ & _ & _ & _ & _ & _ & _ & _ & _ & Hleaf).
    unfold is_leaf in Hleaf. destruct (h0 !! l) eqn:Hm; [|discriminate].
    eapply lookup_lt_Some; eauto. }
  destruct (hook_loop_run h0 subset (map fst d)
              (set_self (set_layer_field l' (self wa)) wa))
    as (w1 & Hhook & Htree1 & Hframe1 & Hmodel1 & Hlayer1 & Hname1 & Hmods1).
  { destruct HIa. assumption. }
  { exact Hkeys_d. }
  exists w1, d. split; [|split; [|split; [|split]]].
  - eapply pre_compress_run; [exact Hwrap| |exact Hda|exact Hhook].
    rewrite Hnamea, Hmodela. exact Hl'.
  - rewrite Hmods1. exact Hda.
  - eapply Inv_same_tree; [exact Htree1|].
    eapply Inv_mono; [|exact HIa]. intros n Hn. apply Hkeysa. now right.
  - eapply Registry_frame; eauto.
  - unfold target_ok. rewrite Hmodel1, Hname1, Hlayer1. simpl.
    repeat split; auto.
Qed.

(** The hooks that a returned [pre_compress] leaves outstanding. *)
Lemma pre_compress_hooks (w0 w1 : world) :
  handles (self w0) = [] ->
  modules (self w0) = Some [] ->
  NoDup (map fst (get_prunable_layers (heap w0) (layer (self w0)))) ->
  ids_below (next_hook_id w0) (hooks_view (heap w0)) ->
  pre_compress w0 = (w1, Ok tt) ->
  let base := hooks_view (heap w0) ++
              replicate (length (get_prunable_layers (heap w0) (layer (self w0)))) []
  in
  ids_below (next_hook_id w0) base /\
  Pending base (handles (self w1)) (hooks_view (heap w1)) /\
  handles_ok (next_hook_id w0) (next_hook_id w1) (handles (self w1)).
Proof.
  intros Hh0 Hm0 Hnd Hids Hrun base.
  apply pre_compress_inv in Hrun as (wa & l & d & Hwrap & _ & Hd & Hhook).
  destruct (wrap_loop_inv _ _ _ _ _ Hwrap Hm0)
    as (Hhv & Hnext & Hhandles & d' & Hd' & Hkeys).
  assert (d' = d) by congruence. subst d'.
  specialize (Hkeys Hnd). simpl in Hkeys.
  rewrite Hkeys in Hhook by (intros k _ Hin; now apply elem_of_nil in Hin).
  assert (Hbase : ids_below (next_hook_id w0) base).
  { intros o old e Ho He. unfold base in Ho.
    apply lookup_app_Some in Ho as [Ho|[_ Ho]]; [eauto|].
    apply lookup_replicate in Ho as [-> _]. now apply elem_of_nil in He. }
  split; [exact Hbase|].
  destruct (hook_loop_inv _ base (next_hook_id w0) _ _ _ Hhook)
    as (Hp & Hok & _); simpl; auto.
  - rewrite Hhandles, Hh0, Hhv, length_map. apply Pending_start.
  - rewrite Hhandles, Hh0. constructor.
  - lia.
Qed.

(** X13. The whole lifecycle gives the model back. From a fresh
    instance on a well addressed layer, [pre_compress], [compress]
    (whether it returns or raises), [post_compress] and
    [revert_layer_wrappers] run one after the other; the last two
    return, and afterwards every original module has its original
    children, by identity, and its original forward hooks, the
    instance holds no handle, and its registry is [None]. *)
Theorem lifecycle_restores_model (fuel : nat) (w0 : world) :
  handles (self w0) = [] ->
  modules (self w0) = Some [] ->
  NoDup (map fst (get_prunable_layers (heap w0) (layer (self w0)))) ->
  ids_below (next_hook_id w0) (hooks_view (heap w0)) ->
  well_addressed (heap w0) (self w0)
    (get_prunable_layers (heap w0) (layer (self w0))) = true ->
  get_layer (heap w0) (split_dots (name (self w0))) (model (self w0))
    = Ok (layer (self w0)) ->
  exists w1 w2 r w3 w4,
    pre_compress w0 = (w1, Ok tt) /\
    compress fuel w1 = (w2, r) /\
    post_compress w2 = (w3, Ok tt) /\
    revert_layer_wrappers w3 = (w4, Ok tt) /\
    handles (self w4) = [] /\
    modules (self w4) = None /\
    forall o m0, heap w0 !! o = Some m0 ->
      exists m4, heap w4 !! o = Some m4 /\
                 map fst (m_modules m4) = map fst (m_modules m0) /\
                 (forall a, dict_get a (m_modules m4) = dict_get a (m_modules m0)) /\
                 m_forward_hooks m4 = m_forward_hooks m0.
Proof.
  intros Hh0 Hm0 Hnd Hids Haddr Hlayer.
  destruct (pre_compress_prepares w0 Hm0 Haddr Hlayer)
    as (w1 & d & Hpre & Hd1 & HI1 & Hreg1 & Htarget1).
  destruct (pre_compress_hooks w0 w1 Hh0 Hm0 Hnd Hids Hpre)
    as (Hbase & Hpending1 & Hok1).
  set (subset := get_prunable_layers (heap w0) (layer (self w0))) in *.
  set (base := hooks_view (heap w0) ++ replicate (length subset) []) in *.
  destruct (compress_frame fuel w1) as (evs & r & Hcomp & _).
  set (w2 := set_trace (trace w1 ++ evs) w1) in *.
  destruct (remove_loop base _ _ (handles (self w2)) w2 Hpending1 Hbase Hok1)
    as (w3' & Hrem & Hdone & Hself3).
  destruct (remove_loop_tree _ _ _ Hrem) as [Htree3 Hcls3].
  apply Pending_done in Hdone.
  set (w3 := set_self (set_handles [] (self w3')) w3').
  assert (Hpost : post_compress w2 = (w3, Ok tt)).
  { unfold post_compress, get_self, put_self, bind. now rewrite Hrem. }
  destruct (revert_loop_run (heap w0) (self w0) subset Haddr d w3)
    as (w4' & Hrev & HI4 & Hself4).
  { simpl. eapply Inv_same_tree; [exact Htree3|exact HI1]. }
  { simpl. eapply Registry_same_tree; [exact Htree3|exact Hcls3|exact Hreg1]. }
  { simpl. rewrite Hself3. exact Htarget1. }
  pose proof (revert_loop_hooks _ _ _ Hrev) as Hview4. simpl in Hview4.
  exists w1, w2, r, w3, (set_self (set_modules_field None (self w4')) w4').
  split; [exact Hpre|]. split; [exact Hcomp|]. split; [exact Hpost|].
  split; [|split; [|split]].
  - unfold revert_layer_wrappers, modules_items, bind at 1. simpl.
    rewrite Hself3. simpl. rewrite Hd1.
    unfold bind at 1. rewrite Hrev. reflexivity.
  - simpl. now rewrite Hself4.
  - reflexivity.
  - intros o m0 Ho. simpl. destruct HI4 as [_ Hinv4].
    destruct (Hinv4 o m0 Ho) as (m4 & Hm4 & Hkeys4 & Hslots4).
    exists m4. split; [assumption|]. split; [assumption|]. split.
    + intros a. destruct (dict_get a (m_modules m0)) as [v0|] eqn:Hv0.
      * destruct (Hslots4 a v0 Hv0) as (v & Hv & [->|(_ & _ & n & Hn & _)]);
          [assumption|]. now apply elem_of_nil in Hn.
      * apply dict_get_None_keys. rewrite Hkeys4. intros Hin.
        apply dict_get_keys_Some in Hin as (v & Hv). congruence.
    + assert (Hlook : hooks_view (heap w4') !! o = Some (m_forward_hooks m0)).
      { rewrite Hview4, Hdone. unfold base. apply lookup_app_l_Some.
        now rewrite hooks_view_lookup, Ho. }
      rewrite hooks_view_lookup, Hm4 in Hlook. now injection Hlook.
Qed.

End FullLifecycle.

Section HookContent.
Context `{Externals}.

(** The hooks that the second loop of [pre_compress] adds to object
    [o], in order: one per name whose module is [o], with the ids
    counted up from [start] over all names. *)
Fixpoint issued_for (subset : list (string * nat)) (o : nat) (start : nat)
    (ns : list string) : list (nat * forward_hook) :=
  match ns with
  | [] => []
  | n :: ns' =>
      (if bool_decide (dict_get n subset = Some o)
       then [(start, AddBatchHook n)] else [])
      ++ issued_for subset o (S start) ns'
  end.

Lemma hook_loop_content subset o : forall ns w w' m,
  for_each ns (hook_module subset) w = (w', Ok tt) ->
  heap w !! o = Some m ->
  (forall e, e ∈ m_forward_hooks m -> e.1 < next_hook_id w) ->
  exists m', heap w' !! o = Some m' /\
             m_forward_hooks m'
             = m_forward_hooks m ++ issued_for subset o (next_hook_id w) ns.
Proof.
  induction ns as [|n ns IH]; intros w w' m; simpl.
  - intros [= <-] Hm _. exists m. now rewrite app_nil_r.
  - intros (w1 & [] & Hstep & Hrest)%bind_inv_ok Hm Hfresh.
    rewrite hook_module_eq in Hstep.
    destruct (dict_get n subset) as [l0|] eqn:Hl0; [|discriminate].
    destruct (heap w !! l0) as [m0|] eqn:Hm0; [|discriminate].
    cbv zeta in Hstep. injection Hstep as <-.
    destruct (decide (l0 = o)) as [->|Hne].
    + assert (m0 = m) by congruence. subst m0.
      rewrite bool_decide_eq_true_2 by reflexivity.
      destruct (IH _ _ (set_forward_hooks
                          (dict_set (next_hook_id w) (AddBatchHook n)
                             (m_forward_hooks m)) m) Hrest)
        as (m' & Hm' & Hhooks').
      * simpl. apply list_lookup_insert_eq. eapply lookup_lt_Some; eauto.
      * simpl. rewrite dict_set_absent.
        -- intros e [He|He]%elem_of_app.
           ++ specialize (Hfresh e He). lia.
           ++ apply list_elem_of_singleton in He. subst. simpl. lia.
        -- intros Hin. apply list_elem_of_fmap in Hin as (e & He1 & He).
           specialize (Hfresh e He). lia.
      * exists m'. split; [assumption|]. rewrite Hhooks'. simpl.
        rewrite dict_set_absent; [now rewrite <- app_assoc|].
        intros Hin. apply list_elem_of_fmap in Hin as (e & He1 & He).
        specialize (Hfresh e He). lia.
    + rewrite bool_decide_eq_false_2 by congruence.
      destruct (IH _ _ m Hrest) as (m' & Hm' & Hhooks').
      * simpl. now rewrite list_lookup_insert_ne by congruence.
      * simpl. intros e He. specialize (Hfresh e He). lia.
      * exists m'. split; [assumption|]. exact Hhooks'.
Qed.

Lemma hook_loop_modules subset : forall ns w w',
  for_each ns (hook_module subset) w = (w', Ok tt) ->
  modules (self w') = modules (self w).
Proof.
  induction ns as [|n ns IH]; intros w w'; simpl.
  - now intros [= <-].
  - intros (w1 & [] & Hstep & Hrest)%bind_inv_ok.
    rewrite (IH _ _ Hrest). rewrite hook_module_eq in Hstep.
    destruct (dict_get n subset); [|discriminate].
    destruct (heap w !! _); [|discriminate].
    cbv zeta in Hstep. now injection Hstep as <-.
Qed.

Lemma issued_for_none subset o start ns :
  (forall n, n ∈ ns -> dict_get n subset <> Some o) ->
  issued_for subset o start ns = [].
Proof.
  revert start. induction ns as [|n ns IH]; intros start Hns; simpl; [reflexivity|].
  rewrite bool_decide_eq_false_2 by (apply Hns, list_elem_of_here).
  apply IH. intros k Hk. apply Hns. now apply list_elem_of_further.
Qed.

Lemma issued_for_unique subset o n : forall ns start,
  NoDup ns -> n ∈ ns ->
  dict_get n subset = Some o ->
  (forall n', n' ∈ ns -> dict_get n' subset = Some o -> n' = n) ->
  exists id, issued_for subset o start ns = [(id, AddBatchHook n)].
Proof.
  induction ns as [|k ns IH]; intros start Hnd Hin Hn Huniq.
  - now apply elem_of_nil in Hin.
  - apply NoDup_cons in Hnd as [Hk Hnd]. simpl.
    destruct (decide (k = n)) as [->|Hne].
    + rewrite bool_decide_eq_true_2 by assumption.
      rewrite issued_for_none; [eauto|].
      intros n' Hn' Ho. apply Hk.
      rewrite <- (Huniq n' (list_elem_of_further _ _ _ Hn') Ho). exact Hn'.
    + rewrite bool_decide_eq_false_2.
      * apply IH; auto.
        -- apply elem_of_cons in Hin as [?|?]; [congruence|assumption].
        -- intros n' Hn'. apply Huniq. now apply list_elem_of_further.
      * intros Ho. apply Hne. apply Huniq; [apply list_elem_of_here|assumption].
Qed.

(** X14. What the statistic hook does. After [pre_compress] on a fresh
    instance and a well addressed layer, take a compressible module
    that had no forward hook and is listed under one name only. Running
    its forward hooks on a call whose first positional argument and
    whose output are tensors asks exactly one thing: [add_batch], with
    that argument and that output, of the wrapper registered under the
    module's name, which is the wrapper holding the module. *)
Theorem hooked_module_feeds_its_wrapper (w0 : world) (n : string) (l : nat)
    (m0 : torch_module) (ti : tensor) (rest : list pyobj) (to : tensor) :
  modules (self w0) = Some [] ->
  NoDup (map fst (get_prunable_layers (heap w0) (layer (self w0)))) ->
  well_addressed (heap w0) (self w0)
    (get_prunable_layers (heap w0) (layer (self w0))) = true ->
  get_layer (heap w0) (split_dots (name (self w0))) (model (self w0))
    = Ok (layer (self w0)) ->
  dict_get n (get_prunable_layers (heap w0) (layer (self w0))) = Some l ->
  (forall n', dict_get n' (get_prunable_layers (heap w0) (layer (self w0)))
              = Some l -> n' = n) ->
  heap w0 !! l = Some m0 ->
  m_forward_hooks m0 = [] ->
  exists w1 d wrapper,
    pre_compress w0 = (w1, Ok tt) /\
    modules (self w1) = Some d /\
    dict_get n d = Some wrapper /\
    getattr_module (heap w1) wrapper "layer" = Ok l /\
    run_forward_hooks l (PTensor ti :: rest) (PTensor to) w1
    = (set_trace (trace w1 ++ [EvAddBatch wrapper ti to]) w1, Ok tt).
Proof.
  intros Hmods Hnd Haddr Hlayer Hl Huniq Hm0 Hnohooks.
  destruct (pre_compress_prepares w0 Hmods Haddr Hlayer)
    as (w1 & d & Hpre & Hd1 & _ & Hreg1 & _).
  set (subset := get_prunable_layers (heap w0) (layer (self w0))) in *.
  pose proof Hpre as Hinv.
  apply pre_compress_inv in Hinv as (wa & l' & d' & Hwrap & _ & Hd' & Hhook).
  fold subset in Hwrap, Hhook.
  destruct (wrap_loop_inv _ _ _ _ _ Hwrap Hmods)
    as (Hhv & _ & _ & d'' & Hd'' & Hkeys).
  assert (d'' = d') by congruence. subst d''.
  specialize (Hkeys Hnd). simpl in Hkeys.
  assert (Hnil : forall k : string, k ∈ map fst subset -> k ∉ @nil string).
  { intros k _ Hin. now apply elem_of_nil in Hin. }
  specialize (Hkeys Hnil). rewrite Hkeys in Hhook.
  assert (Hd_eq : d' = d).
  { pose proof (hook_loop_modules _ _ _ _ Hhook) as Hsame. simpl in Hsame.
    congruence. }
  subst d'.
  assert (Hma : exists ma, heap wa !! l = Some ma /\ m_forward_hooks ma = []).
  { assert (Hlook : hooks_view (heap wa) !! l = Some []).
    { rewrite Hhv. apply lookup_app_l_Some.
      now rewrite hooks_view_lookup, Hm0, <- Hnohooks. }
    rewrite hooks_view_lookup in Hlook.
    destruct (heap wa !! l) as [ma|]; [|discriminate].
    injection Hlook as Hlook. eauto. }
  destruct Hma as (ma & Hma & Hma_hooks).
  destruct (hook_loop_content subset l _ _ _ ma Hhook) as (m1 & Hm1 & Hhooks1).
  { exact Hma. }
  { rewrite Hma_hooks. intros e He. now apply elem_of_nil in He. }
  rewrite Hma_hooks in Hhooks1. simpl in Hhooks1.
  destruct (issued_for_unique subset l n (map fst subset) (next_hook_id wa))
    as (id & Hissued); auto.
  { eapply dict_get_Some_keys; eauto. }
  rewrite Hissued in Hhooks1.
  assert (Hn : n ∈ map fst d).
  { rewrite Hkeys. eapply dict_get_Some_keys; eauto. }
  apply dict_get_keys_Some in Hn as (wrapper & Hwrapper).
  exists w1, d, wrapper.
  split; [exact Hpre|]. split; [exact Hd1|]. split; [exact Hwrapper|]. split.
  - pose proof (dict_get_Some_elem _ _ _ Hwrapper) as Helem.
    unfold Registry in Hreg1. rewrite Forall_forall in Hreg1.
    destruct (Hreg1 _ Helem) as (_ & l0 & mW & Hl0 & HW & _ & Hlayer0).
    simpl in *. assert (l0 = l) by congruence. subst l0.
    apply getattr_module_Ok. eauto.
  - unfold run_forward_hooks, get_module, bind at 1. rewrite Hm1, Hhooks1.
    simpl. unfold run_forward_hook, get_self, bind. simpl.
    rewrite Hd1, Hwrapper. reflexivity.
Qed.

End HookContent.

(** ** The facts on the sample model *)

#[local] Existing Instance sample_externals.

(** The sample after a second [set_early_stop]. *)
Definition sample_stopped_twice : world :=
  Eval vm_compute in (set_early_stop sample_stopped).1.

Definition sample_input : tensor := Tensor Cpu [1] [1%Q].

Lemma sample_names_NoDup :
  NoDup (map fst (get_prunable_layers (heap sample_world)
                    (layer (self sample_world)))).
Proof. apply (bool_decide_unpack _). vm_compute. exact I. Defined.

Lemma early_stop_set_then_clear_witness :
  exists w2,
    clear_early_stop sample_stopped = (w2, Ok tt) /\
    heap w2 = heap sample_world /\
    self w2 = set_early_stop_handle None (self sample_world) /\
    trace w2 = trace sample_world /\
    grad_enabled w2 = grad_enabled sample_world.
Proof.
  apply (early_stop_set_then_clear sample_world sample_stopped).
  - intros m e Hm He. vm_compute in Hm. injection Hm as <-.
    now apply elem_of_nil in He.
  - reflexivity.
Defined.

Lemma early_stop_set_twice_leaks_witness :
  exists w3,
    clear_early_stop sample_stopped_twice = (w3, Ok tt) /\
    early_stop_handle (self w3) = None /\
    module_call (layer (self sample_world)) [PTensor sample_input] [] w3
    = (w3, Err (EarlyStopException [PTensor sample_input] [])).
Proof.
  apply (early_stop_set_twice_leaks sample_world sample_stopped
           sample_stopped_twice); reflexivity.
Defined.

Lemma calibrate_layer_early_stop_witness :
  calibrate_layer [([PTensor sample_input], [("use_cache", PNone)])] sample_stopped
  = (sample_stopped,
     Err (EarlyStopException
            (args_to_device [PTensor sample_input]
               (get_execution_device (heap sample_stopped)
                  (layer (self sample_stopped))))
            (kwargs_to_device [("use_cache", PNone)]
               (get_execution_device (heap sample_stopped)
                  (layer (self sample_stopped)))))).
Proof.
  apply (calibrate_layer_early_stop sample_world sample_stopped). reflexivity.
Defined.

Lemma pre_compress_after_revert_fails_witness :
  pre_compress sample_reverted <> (sample_reverted, Ok tt).
Proof.
  apply (pre_compress_after_revert_fails sample_prepared sample_reverted).
  reflexivity.
Defined.

Lemma revert_before_post_compress_breaks_hooks_witness :
  run_forward_hooks 4 [PTensor sample_input] (PTensor sample_input) sample_reverted
  = (sample_reverted, Err TypeError).
Proof.
  apply (revert_before_post_compress_breaks_hooks
           sample_world sample_prepared sample_reverted "mlp").
  - reflexivity.
  - exact sample_names_NoDup.
  - reflexivity.
  - reflexivity.
  - reflexivity.
Defined.

Lemma lifecycle_restores_model_witness :
  exists w1 w2 r w3 w4,
    pre_compress sample_world = (w1, Ok tt) /\
    compress 4 w1 = (w2, r) /\
    post_compress w2 = (w3, Ok tt) /\
    revert_layer_wrappers w3 = (w4, Ok tt) /\
    handles (self w4) = [] /\
    modules (self w4) = None /\
    forall o m0, heap sample_world !! o = Some m0 ->
      exists m4, heap w4 !! o = Some m4 /\
                 map fst (m_modules m4) = map fst (m_modules m0) /\
                 (forall a, dict_get a (m_modules m4) = dict_get a (m_modules m0)) /\
                 m_forward_hooks m4 = m_forward_hooks m0.
Proof.
  apply (lifecycle_restores_model 4 sample_world).
  - reflexivity.
  - reflexivity.
  - exact sample_names_NoDup.
  - apply ids_below_no_hooks. repeat constructor.
  - reflexivity.
  - reflexivity.
Defined.

Lemma hooked_module_feeds_its_wrapper_witness :
  exists w1 d wrapper,
    pre_compress sample_world = (w1, Ok tt) /\
    modules (self w1) = Some d /\
    dict_get "mlp" d = Some wrapper /\
    getattr_module (heap w1) wrapper "layer" = Ok 4 /\
    run_forward_hooks 4 [PTensor sample_input] (PTensor sample_input) w1
    = (set_trace (trace w1 ++ [EvAddBatch wrapper sample_input sample_input]) w1,
       Ok tt).
Proof.
  apply (hooked_module_feeds_its_wrapper sample_world "mlp" 4 (plain [])).
  - reflexivity.
  - exact sample_names_NoDup.
  - reflexivity.
  - reflexivity.
  - reflexivity.
  - intros n' Hn'.
    change (dict_get n' [("self_attn.q_proj", 6); ("self_attn.k_proj", 7);
                         ("mlp", 4)] = Some 4) in Hn'.
    cbn [dict_get] in Hn'.
    destruct (decide (n' = "self_attn.q_proj")); [discriminate|].
    destruct (decide (n' = "self_attn.k_proj")); [discriminate|].
    destruct (decide (n' = "mlp")); [assumption|discriminate].
  - reflexivity.
  - reflexivity.
Defined.

End CompressorFacts.
